(** * Verification of ipa_import.py (FreeIPA CSV import script)

    Shallow embedding of the reconciliation core of [ipa_import.py]:
    group-name normalisation ([fix_csv_group_names]), the CSV fix-ups,
    [find_user_differences], [find_group_changes], [commit_changes] and the
    data flow of [main] up to the change plan.

    Representation choices:
    - Python 3 [str] values come from a file read as latin-1, so every code
      point is below 256: a string is a Stdlib [string] whose [ascii]
      characters are read as latin-1 code points.  The output of the [ipa]
      command is bytes: [parse_freeipa_output_bytes] models its UTF-8 decode
      and the parse over all code points; the string-level
      [parse_freeipa_output] is the same parse for decoded texts below 256.
    - A Python [dict] (insertion ordered) is an association list with unique
      keys: assignment to an existing key replaces the value in place, a new
      key is appended at the end.
    - A Python [set] is a duplicate-free list; its iteration order is
      unspecified in Python and fixed to list order here. *)

From Stdlib Require Import Bool Arith List String Ascii ZArith NArith Lia Sorting.Sorted.
Import ListNotations.
Open Scope string_scope.
Open Scope nat_scope.
Open Scope list_scope.

(** ** Python dicts as insertion-ordered association lists *)

Definition dict (V : Type) := list (string * V).

Fixpoint dict_get {V} (k : string) (d : dict V) : option V :=
  match d with
  | [] => None
  | (k', v) :: d' => if String.eqb k k' then Some v else dict_get k d'
  end.

Fixpoint dict_replace {V} (k : string) (v : V) (d : dict V) : dict V :=
  match d with
  | [] => []
  | (k', v') :: d' =>
      if String.eqb k k' then (k', v) :: d' else (k', v') :: dict_replace k v d'
  end.

(** [d[k] = v] *)
Definition dict_set {V} (k : string) (v : V) (d : dict V) : dict V :=
  match dict_get k d with
  | Some _ => dict_replace k v d
  | None => d ++ [(k, v)]
  end.

(** [d[k].append(x)] on a [collections.defaultdict(list)] *)
Definition dict_append {V} (k : string) (x : V) (d : dict (list V)) : dict (list V) :=
  match dict_get k d with
  | Some l => dict_set k (l ++ [x]) d
  | None => dict_set k [x] d
  end.

(** [d.update(pairs)] *)
Definition dict_update {V} (d : dict V) (pairs : list (string * V)) : dict V :=
  fold_left (fun acc '(k, v) => dict_set k v acc) pairs d.

Definition dict_keys {V} (d : dict V) : list string := map fst d.

(** ** Python sets of strings *)

Definition mem (x : string) (l : list string) : bool := existsb (String.eqb x) l.

Fixpoint set_of (l : list string) : list string :=
  match l with
  | [] => []
  | x :: l' => let s := set_of l' in if mem x s then s else x :: s
  end.

(** [a | b] *)
Definition set_union (a b : list string) : list string :=
  a ++ filter (fun x => negb (mem x a)) b.

(** [a - b] *)
Definition set_diff (a b : list string) : list string :=
  filter (fun x => negb (mem x b)) a.

(** ** Character classes and string primitives (latin-1 code points) *)

Definition code (c : ascii) : nat := nat_of_ascii c.

(** [str.isspace] restricted to latin-1 *)
Definition is_space (c : ascii) : bool :=
  match code c with
  | 9 | 10 | 11 | 12 | 13 | 28 | 29 | 30 | 31 | 32 | 133 | 160 => true
  | _ => false
  end.

Definition slash : ascii := "/"%char.

Fixpoint drop_while (p : ascii -> bool) (l : list ascii) : list ascii :=
  match l with
  | [] => []
  | c :: l' => if p c then drop_while p l' else l
  end.

Definition strip_list (p : ascii -> bool) (l : list ascii) : list ascii :=
  rev (drop_while p (rev (drop_while p l))).

Definition strip_by (p : ascii -> bool) (s : string) : string :=
  string_of_list_ascii (strip_list p (list_ascii_of_string s)).

(** [s.strip()] *)
Definition strip (s : string) : string := strip_by is_space s.

(** [s.strip(' ' + GROUP_SEP)] *)
Definition strip_space_sep (s : string) : string :=
  strip_by (fun c => Ascii.eqb c " "%char || Ascii.eqb c slash) s.

(** [s.split()] : runs of whitespace separate words, no empty words *)
Fixpoint split_ws_aux (cur : list ascii) (l : list ascii) : list (list ascii) :=
  match l with
  | [] => match cur with [] => [] | _ => [rev cur] end
  | c :: l' =>
      if is_space c then
        match cur with
        | [] => split_ws_aux [] l'
        | _ => rev cur :: split_ws_aux [] l'
        end
      else split_ws_aux (c :: cur) l'
  end.

(** [s.split(sep)] for a one-character separator *)
Fixpoint split_sep_aux (sep : ascii) (cur : list ascii) (l : list ascii) : list (list ascii) :=
  match l with
  | [] => [rev cur]
  | c :: l' =>
      if Ascii.eqb c sep then rev cur :: split_sep_aux sep [] l'
      else split_sep_aux sep (c :: cur) l'
  end.

(** [sep.join(words)] *)
Fixpoint join (sep : list ascii) (ws : list (list ascii)) : list ascii :=
  match ws with
  | [] => []
  | [w] => w
  | w :: ws' => w ++ sep ++ join sep ws'
  end.

(** [str.lower] on latin-1 *)
Definition lower_char (c : ascii) : ascii :=
  let n := code c in
  if (65 <=? n) && (n <=? 90) then ascii_of_nat (n + 32)
  else if (192 <=? n) && (n <=? 222) && negb (n =? 215) then ascii_of_nat (n + 32)
  else c.

Definition chars (l : list nat) : list ascii := map ascii_of_nat l.

(** [group_name.replace(umlaut, replacement)] for one umlaut *)
Definition replace_char (u : nat) (r : list ascii) (l : list ascii) : list ascii :=
  flat_map (fun c => if code c =? u then r else [c]) l.

(** [unicodedata.normalize('NFKD', c).encode('ascii', 'ignore')] for one
    latin-1 character: its compatibility decomposition with every non-ASCII
    code point dropped (combining marks, U+03BC, U+2044, ...). *)
Definition nfkd_ascii_char (c : ascii) : list ascii :=
  let n := code c in
  let between a b := (a <=? n) && (n <=? b) in
  if n <? 128 then [c]
  else if (n =? 160) || (n =? 168) || (n =? 175) || (n =? 180) || (n =? 184)
  then [" "%char]
  else if n =? 170 then ["a"%char]
  else if n =? 178 then ["2"%char]
  else if n =? 179 then ["3"%char]
  else if n =? 185 then ["1"%char]
  else if n =? 186 then ["o"%char]
  else if n =? 188 then ["1"%char; "4"%char]
  else if n =? 189 then ["1"%char; "2"%char]
  else if n =? 190 then ["3"%char; "4"%char]
  else if between 192 197 then ["A"%char]
  else if n =? 199 then ["C"%char]
  else if between 200 203 then ["E"%char]
  else if between 204 207 then ["I"%char]
  else if n =? 209 then ["N"%char]
  else if between 210 214 then ["O"%char]
  else if between 217 220 then ["U"%char]
  else if n =? 221 then ["Y"%char]
  else if between 224 229 then ["a"%char]
  else if n =? 231 then ["c"%char]
  else if between 232 235 then ["e"%char]
  else if between 236 239 then ["i"%char]
  else if n =? 241 then ["n"%char]
  else if between 242 246 then ["o"%char]
  else if between 249 252 then ["u"%char]
  else if (n =? 253) || (n =? 255) then ["y"%char]
  else [].

(** [_groupname_strip_re = re.compile(r'[^A-Za-z0-9_/-]')] keeps these *)
Definition group_char (c : ascii) : bool :=
  let n := code c in
  ((65 <=? n) && (n <=? 90)) || ((97 <=? n) && (n <=? 122))
  || ((48 <=? n) && (n <=? 57)) || (n =? 95) || (n =? 47) || (n =? 45).

(** ** [fix_csv_group_names], one entry *)

(** The normalised name of the whole field, before it is split on [GROUP_SEP]. *)
Definition normalize_group_field (original_group_name : string) : list ascii :=
  let l := list_ascii_of_string original_group_name in
  let g := map lower_char (join ["_"%char] (split_ws_aux [] l)) in
  let g := replace_char 228 (chars [97; 101]) g in   (* a-umlaut -> ae *)
  let g := replace_char 246 (chars [111; 101]) g in  (* o-umlaut -> oe *)
  let g := replace_char 252 (chars [117; 101]) g in  (* u-umlaut -> ue *)
  let g := flat_map nfkd_ascii_char g in
  filter group_char g.

Definition to_strings (ls : list (list ascii)) : list string :=
  map string_of_list_ascii ls.

(** [group_names] of one entry *)
Definition group_names_of (raw_groups : string) : list string :=
  to_strings (split_sep_aux slash [] (normalize_group_field (strip_space_sep raw_groups))).

(** [original_group_name.split(GROUP_SEP)] of one entry *)
Definition original_segments_of (raw_groups : string) : list string :=
  to_strings (split_sep_aux slash [] (list_ascii_of_string (strip_space_sep raw_groups))).

(** ** Records *)

(** A row of the CSV file as [read_csv_file] yields it (the columns of
    [CSV_MAP]). *)
Record raw_entry := {
  r_user_login : string;
  r_first_name : string;
  r_last_name : string;
  r_email_address : string;
  r_telephone_number : string;
  r_mobile_telephone_number : string;
  r_member_of_groups : string
}.

(** The same row after [fix_csv_group_names] replaced
    [entry['member_of_groups']] by a set of group names. *)
Record csv_entry := {
  user_login : string;
  first_name : string;
  last_name : string;
  email_address : string;
  telephone_number : string;
  mobile_telephone_number : string;
  member_of_groups : list string
}.

(** [new.get(key, '')] on a CSV entry (every tracked key is present). *)
Definition csv_get (e : csv_entry) (key : string) : string :=
  if String.eqb key "first_name" then first_name e
  else if String.eqb key "last_name" then last_name e
  else if String.eqb key "email_address" then email_address e
  else if String.eqb key "telephone_number" then telephone_number e
  else if String.eqb key "mobile_telephone_number" then mobile_telephone_number e
  else "".

(** A user as returned by [query_ipa] and [fix_ipa_groups]: the string
    fields of [parse_freeipa_output], and the key [member_of_groups], when
    present, turned into a set.  [{}] (user not found) is the record with no
    field and no group key. *)
Record ipa_entry := {
  ipa_fields : dict string;
  ipa_member_of_groups : option (list string)
}.

(** [if old:] -- a dict is true when it has a key *)
Definition ipa_truthy (e : ipa_entry) : bool :=
  match ipa_fields e, ipa_member_of_groups e with
  | [], None => false
  | _, _ => true
  end.

(** [old.get(key, '')] for a string key *)
Definition ipa_get (e : ipa_entry) (key : string) : string :=
  match dict_get key (ipa_fields e) with Some v => v | None => "" end.

(** [old.get('member_of_groups', set())] *)
Definition ipa_groups (e : ipa_entry) : list string :=
  match ipa_member_of_groups e with Some s => s | None => [] end.

(** ** Configuration *)

Definition DEFAULT_GROUPS : list string := ["ipausers"].

Definition IPA_CMDLINE_MAP : list (string * string) :=
  [("first_name", "first"); ("last_name", "last"); ("email_address", "email");
   ("telephone_number", "phone"); ("mobile_telephone_number", "mobile")].

(** ** [fix_csv_group_names] *)

Definition to_csv_entry (r : raw_entry) (groups : list string) : csv_entry :=
  {| user_login := r_user_login r; first_name := r_first_name r;
     last_name := r_last_name r; email_address := r_email_address r;
     telephone_number := r_telephone_number r;
     mobile_telephone_number := r_mobile_telephone_number r;
     member_of_groups := groups |}.

Definition nonempty (s : string) : bool := negb (String.eqb s "").

Fixpoint fix_csv_group_names_aux (group_descriptions : dict string) (entries : list raw_entry)
  : list csv_entry * dict string :=
  match entries with
  | [] => ([], group_descriptions)
  | entry :: rest =>
      let group_names := group_names_of (r_member_of_groups entry) in
      let entry' := to_csv_entry entry (set_of (filter nonempty group_names)) in
      let group_descriptions' :=
        dict_update group_descriptions
          (combine group_names (original_segments_of (r_member_of_groups entry))) in
      let '(rest', d) := fix_csv_group_names_aux group_descriptions' rest in
      (entry' :: rest', d)
  end.

(** Returns the updated entries and [group_descriptions]. *)
Definition fix_csv_group_names (entries : list raw_entry) : list csv_entry * dict string :=
  fix_csv_group_names_aux [] entries.

(** ** [fix_csv_emails] and [fix_csv_zero_entries] *)

(** [email.split(';')[0]] *)
Fixpoint before_semicolon (s : string) : string :=
  match s with
  | EmptyString => EmptyString
  | String c s' => if Ascii.eqb c ";"%char then EmptyString else String c (before_semicolon s')
  end.

Definition fix_csv_email (e : csv_entry) : csv_entry :=
  {| user_login := user_login e; first_name := first_name e;
     last_name := last_name e; email_address := before_semicolon (email_address e);
     telephone_number := telephone_number e;
     mobile_telephone_number := mobile_telephone_number e;
     member_of_groups := member_of_groups e |}.

Definition fix_csv_emails (entries : list csv_entry) : list csv_entry :=
  map fix_csv_email entries.

Definition zero_to_empty (v : string) : string :=
  if String.eqb (strip v) "0" then "" else v.

Definition fix_csv_zero_entry (e : csv_entry) : csv_entry :=
  {| user_login := user_login e; first_name := first_name e;
     last_name := last_name e; email_address := zero_to_empty (email_address e);
     telephone_number := zero_to_empty (telephone_number e);
     mobile_telephone_number := zero_to_empty (mobile_telephone_number e);
     member_of_groups := member_of_groups e |}.

Definition fix_csv_zero_entries (entries : list csv_entry) : list csv_entry :=
  map fix_csv_zero_entry entries.

(** ** [find_user_differences] *)

Record changes := {
  user_mod : dict (list string);
  user_add : dict (list string);
  group_add_member : dict (list string);
  group_remove_member : dict (list string)
}.

Definition empty_changes : changes :=
  {| user_mod := []; user_add := []; group_add_member := []; group_remove_member := [] |}.

(** ['--{0}={1}'.format(cmdline_key, value)] *)
Definition flag (cmdline_key value : string) : string :=
  String.append "--" (String.append cmdline_key (String.append "=" value)).

(** ['--users={}'.format(user)] *)
Definition users_flag (user : string) : string := String.append "--users=" user.

(** [user_changes] of a user present in IPA *)
Definition user_changes (new : csv_entry) (old : ipa_entry) : list string :=
  flat_map (fun '(key, cmdline_key) =>
              let new_val := strip (csv_get new key) in
              let old_val := strip (ipa_get old key) in
              if String.eqb new_val old_val then [] else [flag cmdline_key new_val])
           IPA_CMDLINE_MAP.

(** the attribute list of [changes['user-add'][user]] *)
Definition user_add_args (new : csv_entry) : list string :=
  map (fun '(key, cmdline_key) => flag cmdline_key (strip (csv_get new key))) IPA_CMDLINE_MAP.

Definition add_members (user : string) (groups : list string) (d : dict (list string))
  : dict (list string) :=
  fold_left (fun acc group => dict_append group (users_flag user) acc) groups d.

(** One iteration of [for new, old in zip(csv_entries, ipa_entries)]. *)
Definition diff_one (ch : changes) (p : csv_entry * ipa_entry) : changes :=
  let '(new, old) := p in
  let user := user_login new in
  let '(um, ua) :=
    if ipa_truthy old then
      match user_changes new old with
      | [] => (user_mod ch, user_add ch)
      | uc => (dict_set user uc (user_mod ch), user_add ch)
      end
    else (user_mod ch, dict_set user (user_add_args new) (user_add ch)) in
  let old_groups := set_union (ipa_groups old) DEFAULT_GROUPS in
  let new_groups := set_union (member_of_groups new) DEFAULT_GROUPS in
  {| user_mod := um; user_add := ua;
     group_add_member :=
       add_members user (set_diff new_groups old_groups) (group_add_member ch);
     group_remove_member :=
       add_members user (set_diff old_groups new_groups) (group_remove_member ch) |}.

Definition find_user_differences (csv_entries : list csv_entry) (ipa_entries : list ipa_entry)
  : changes :=
  fold_left diff_one (combine csv_entries ipa_entries) empty_changes.

(** ** [find_group_changes]

    [status group] is the exit status of [ipa group-show group], the value
    [subprocess.call] returns when the command can be started.  This is the
    run in which no call raises; [find_group_changes_checked] below also
    models the exception. *)
Definition find_group_changes (user_changes : changes) (group_descriptions : dict string)
  (status : string -> Z) : dict (list string) :=
  fold_left
    (fun acc group =>
       if negb (Z.eqb (status group) 0) then
         dict_set group
           (match dict_get group group_descriptions with
            | Some d => [String.append "--desc=" d]
            | None => []
            end) acc
       else acc)
    (dict_keys (group_add_member user_changes)) [].

(** ** [read_csv_file] *)

(** [entry[key] = line[CSV_MAP[key]]] for every key of [CSV_MAP]; [None] is
    the [IndexError] of a row with too few columns. *)
Definition read_csv_line (line : list string) : option raw_entry :=
  match nth_error line 12, nth_error line 5, nth_error line 6, nth_error line 7,
        nth_error line 8, nth_error line 9, nth_error line 10 with
  | Some g, Some u, Some f, Some l, Some e, Some t, Some m =>
      Some {| r_user_login := u; r_first_name := f; r_last_name := l;
              r_email_address := e; r_telephone_number := t;
              r_mobile_telephone_number := m; r_member_of_groups := g |}
  | _, _, _, _, _, _, _ => None
  end.

Fixpoint read_csv_lines (lines : list (list string)) : option (list raw_entry) :=
  match lines with
  | [] => Some []
  | line :: rest =>
      match read_csv_line line with
      | None => None
      | Some entry =>
          match read_csv_lines rest with
          | None => None
          | Some entries => Some (entry :: entries)
          end
      end
  end.

(** [list(read_csv_file(filename))] over the rows [csv.reader] yields.
    [None] is an exception: [next(reader)] on a file without any row (its
    [StopIteration] becomes a [RuntimeError] in the generator), or the
    [IndexError] of a short row. *)
Definition read_csv_file (rows : list (list string)) : option (list raw_entry) :=
  match rows with
  | [] => None
  | _header :: lines => read_csv_lines lines
  end.

(** ** [parse_freeipa_output], [query_ipa] and [fix_ipa_groups] *)

Definition newline : ascii := ascii_of_nat 10.

(** [key, val = line.split(':', 1)]; [None] is the [ValueError] of a line
    without [':']. *)
Fixpoint split_colon (l : list ascii) : option (list ascii * list ascii) :=
  match l with
  | [] => None
  | c :: l' =>
      if Ascii.eqb c ":"%char then Some ([], l')
      else match split_colon l' with
           | Some (k, v) => Some (c :: k, v)
           | None => None
           end
  end.

(** [key.strip().lower().replace(' ', '_')] *)
Definition normalize_key (key : list ascii) : list ascii :=
  map (fun c => if Ascii.eqb c " "%char then "_"%char else c)
      (map lower_char (strip_list is_space key)).

(** [output.strip().split('\n')] *)
Definition output_lines (output : string) : list (list ascii) :=
  split_sep_aux newline [] (strip_list is_space (list_ascii_of_string output)).

Fixpoint parse_lines (entry : dict string) (lines : list (list ascii)) : option (dict string) :=
  match lines with
  | [] => Some entry
  | line :: rest =>
      match split_colon line with
      | None => None
      | Some (key, val) =>
          parse_lines (dict_set (string_of_list_ascii (normalize_key key))
                                (string_of_list_ascii (strip_list is_space val)) entry)
                      rest
      end
  end.

(** [parse_freeipa_output] on the decoded text [str(output, encoding)],
    for a text whose code points are below 256 (see the byte-level model
    [parse_freeipa_output_bytes] below for the decode and all of Unicode);
    [None] is the [ValueError] it raises. *)
Definition parse_freeipa_output (output : string) : option (dict string) :=
  parse_lines [] (output_lines output).

(** [s.split(', ')]: separators are found left to right, without overlap. *)
Fixpoint split_comma_space (cur : list ascii) (l : list ascii) : list (list ascii) :=
  match l with
  | [] => [rev cur]
  | c :: l' =>
      if Ascii.eqb c ","%char then
        match l' with
        | d :: l'' =>
            if Ascii.eqb d " "%char then rev cur :: split_comma_space [] l''
            else split_comma_space (c :: cur) l'
        | [] => split_comma_space (c :: cur) l'
        end
      else split_comma_space (c :: cur) l'
  end.

Definition dict_remove {V} (k : string) (d : dict V) : dict V :=
  filter (fun '(k', _) => negb (String.eqb k k')) d.

(** [fix_ipa_groups] on one entry: the value of ['member_of_groups'], when
    present, becomes the set of its non-empty [', ']-separated parts. *)
Definition fix_ipa_group (entry : dict string) : ipa_entry :=
  {| ipa_fields := dict_remove "member_of_groups" entry;
     ipa_member_of_groups :=
       match dict_get "member_of_groups" entry with
       | Some v =>
           Some (set_of (filter nonempty
                   (to_strings (split_comma_space [] (list_ascii_of_string v)))))
       | None => None
       end |}.

(** One element of [fix_ipa_groups(query_ipa(usernames))]. [output] is the
    decoded output of [ipa user-show --all username], [None] when the command
    fails ([CalledProcessError]: the entry [{}]); the result is [None] when
    [parse_freeipa_output] raises. *)
Definition query_user (output : option string) : option ipa_entry :=
  match output with
  | None => Some (fix_ipa_group [])
  | Some text => option_map fix_ipa_group (parse_freeipa_output text)
  end.

(** *** The byte level: [str(output, encoding='utf-8')] on the bytes of
    [subprocess.check_output], then the parse over Unicode code points *)

Definition in_range (lo hi b : N) : bool := (lo <=? b)%N && (b <=? hi)%N.

(** The strict UTF-8 decoder of [bytes.decode('utf-8')] on byte values:
    [None] is the [UnicodeDecodeError] (a [ValueError]).  The accepted
    sequences are the well-formed ones of the Unicode standard (Table 3-7):
    no overlong form, no surrogate, nothing above U+10FFFF. *)
Fixpoint utf8_code_points (bs : list N) : option (list N) :=
  match bs with
  | [] => Some []
  | b1 :: r1 =>
      if (b1 <? 128)%N then option_map (cons b1) (utf8_code_points r1)
      else if in_range 194 223 b1 then
        match r1 with
        | b2 :: r2 =>
            if in_range 128 191 b2
            then option_map (cons ((b1 - 192) * 64 + (b2 - 128))%N) (utf8_code_points r2)
            else None
        | [] => None
        end
      else if in_range 224 239 b1 then
        let lo := if (b1 =? 224)%N then 160%N else 128%N in
        let hi := if (b1 =? 237)%N then 159%N else 191%N in
        match r1 with
        | b2 :: b3 :: r3 =>
            if in_range lo hi b2 && in_range 128 191 b3
            then option_map (cons ((b1 - 224) * 4096 + (b2 - 128) * 64 + (b3 - 128))%N)
                            (utf8_code_points r3)
            else None
        | _ => None
        end
      else if in_range 240 244 b1 then
        let lo := if (b1 =? 240)%N then 144%N else 128%N in
        let hi := if (b1 =? 244)%N then 143%N else 191%N in
        match r1 with
        | b2 :: b3 :: b4 :: r4 =>
            if in_range lo hi b2 && in_range 128 191 b3 && in_range 128 191 b4
            then option_map
                   (cons ((b1 - 240) * 262144 + (b2 - 128) * 4096 + (b3 - 128) * 64
                          + (b4 - 128))%N)
                   (utf8_code_points r4)
            else None
        | _ => None
        end
      else None
  end.

(** [str(output, encoding='utf-8')] *)
Definition decode_utf8 (output : list Byte.byte) : option (list N) :=
  utf8_code_points (map Byte.to_N output).

(** [str.isspace] on a code point *)
Definition cp_space (c : N) : bool :=
  in_range 9 13 c || in_range 28 32 c || (c =? 133)%N || (c =? 160)%N || (c =? 5760)%N ||
  in_range 8192 8202 c || (c =? 8232)%N || (c =? 8233)%N || (c =? 8239)%N ||
  (c =? 8287)%N || (c =? 12288)%N.

Fixpoint cp_drop_space (l : list N) : list N :=
  match l with
  | [] => []
  | c :: l' => if cp_space c then cp_drop_space l' else l
  end.

(** [s.strip()] *)
Definition cp_strip (l : list N) : list N := rev (cp_drop_space (rev (cp_drop_space l))).

(** [s.split(sep)] for a one-code-point separator *)
Fixpoint cp_split (sep : N) (cur : list N) (l : list N) : list (list N) :=
  match l with
  | [] => [rev cur]
  | c :: l' => if (c =? sep)%N then rev cur :: cp_split sep [] l' else cp_split sep (c :: cur) l'
  end.

(** [line.split(':', 1)], [None] for a line without [':'] (code point 58) *)
Fixpoint cp_split_colon (l : list N) : option (list N * list N) :=
  match l with
  | [] => None
  | c :: l' =>
      if (c =? 58)%N then Some ([], l')
      else match cp_split_colon l' with
           | Some (k, v) => Some (c :: k, v)
           | None => None
           end
  end.

(** A dict whose keys and values are Python [str]s, as code point lists. *)
Definition cp_dict := list (list N * list N).

Definition cp_eqb (a b : list N) : bool := if list_eq_dec N.eq_dec a b then true else false.

Fixpoint cp_dict_get (k : list N) (d : cp_dict) : option (list N) :=
  match d with
  | [] => None
  | (k', v) :: d' => if cp_eqb k k' then Some v else cp_dict_get k d'
  end.

Fixpoint cp_dict_replace (k v : list N) (d : cp_dict) : cp_dict :=
  match d with
  | [] => []
  | (k', v') :: d' => if cp_eqb k k' then (k', v) :: d' else (k', v') :: cp_dict_replace k v d'
  end.

(** [d[k] = v] *)
Definition cp_dict_set (k v : list N) (d : cp_dict) : cp_dict :=
  match cp_dict_get k d with
  | Some _ => cp_dict_replace k v d
  | None => d ++ [(k, v)]
  end.

Section Decoded.

(** [str.lower], the full Unicode case mapping, left abstract: it may change
    the length of a string. *)
Variable lower : list N -> list N.

(** [key.strip().lower().replace(' ', '_')] *)
Definition normalize_key_cp (key : list N) : list N :=
  map (fun c => if (c =? 32)%N then 95%N else c) (lower (cp_strip key)).

Fixpoint parse_lines_cp (entry : cp_dict) (lines : list (list N)) : option cp_dict :=
  match lines with
  | [] => Some entry
  | line :: rest =>
      match cp_split_colon line with
      | None => None
      | Some (key, val) => parse_lines_cp (cp_dict_set (normalize_key_cp key) (cp_strip val) entry) rest
      end
  end.

(** [parse_freeipa_output(output)] on the bytes [output]: [None] is the
    [ValueError] raised by the decode or by [line.split(':', 1)]. *)
Definition parse_freeipa_output_bytes (output : list Byte.byte) : option cp_dict :=
  match decode_utf8 output with
  | None => None
  | Some text => parse_lines_cp [] (cp_split 10 [] (cp_strip text))
  end.

(** One element of [query_ipa(usernames)]: [output] is the output of
    [ipa user-show --all username], [None] when the command fails
    ([CalledProcessError], caught: the entry [{}]); [None] as result is an
    exception of [parse_freeipa_output], which [query_ipa] does not catch. *)
Definition query_ipa_bytes (output : option (list Byte.byte)) : option cp_dict :=
  match output with
  | None => Some []
  | Some bs => parse_freeipa_output_bytes bs
  end.

End Decoded.

(** [str.lower] on text whose letters are ASCII. *)
Definition lower_ascii (s : list N) : list N :=
  map (fun c => if in_range 65 90 c then (c + 32)%N else c) s.

(** The code points of a latin-1 string. *)
Definition cps (s : string) : list N :=
  map (fun c => N.of_nat (nat_of_ascii c)) (list_ascii_of_string s).

(** A sample [ipa user-show --all] output in UTF-8, with a non-ASCII
    letter (U+00FC, bytes C3 BC). *)
Definition sample_user_show_bytes : list Byte.byte :=
  list_byte_of_string "  User login: jdoe" ++ [Byte.x0a] ++
  list_byte_of_string "  Full name: J" ++ [Byte.xc3; Byte.xbc] ++
  list_byte_of_string "rgen Doe " ++ [Byte.x0a] ++
  list_byte_of_string "  Member of groups: ipausers, staff" ++ [Byte.x0a].

(** [find_group_changes] with the failure of the check itself: [call group]
    is [Some] of the exit status of [ipa group-show group], or [None] when
    [subprocess.call] raises ([OSError], e.g. [FileNotFoundError] when [ipa]
    cannot be started).  The exception leaves the loop and reaches the
    caller: the result is then [None]. *)
Definition find_group_changes_checked (user_changes : changes) (group_descriptions : dict string)
  (call : string -> option Z) : option (dict (list string)) :=
  fold_left
    (fun acc group =>
       match acc with
       | None => None
       | Some acc =>
           match call group with
           | None => None
           | Some status =>
               Some (if negb (Z.eqb status 0) then
                       dict_set group
                         (match dict_get group group_descriptions with
                          | Some d => [String.append "--desc=" d]
                          | None => []
                          end) acc
                     else acc)
           end
       end)
    (dict_keys (group_add_member user_changes)) (Some []).

(** ** The change plan of [main] and [commit_changes] *)

Record plan := {
  plan_user_add : dict (list string);
  plan_user_mod : dict (list string);
  plan_group_add : dict (list string);
  plan_group_add_member : dict (list string);
  plan_group_remove_member : dict (list string)
}.

(** [changes[command]] *)
Definition plan_category (p : plan) (command : string) : dict (list string) :=
  if String.eqb command "user-add" then plan_user_add p
  else if String.eqb command "user-mod" then plan_user_mod p
  else if String.eqb command "group-add" then plan_group_add p
  else if String.eqb command "group-add-member" then plan_group_add_member p
  else if String.eqb command "group-remove-member" then plan_group_remove_member p
  else [].

(** [not any(changes.values())] *)
Definition plan_is_empty (p : plan) : bool :=
  match plan_user_add p, plan_user_mod p, plan_group_add p,
        plan_group_add_member p, plan_group_remove_member p with
  | [], [], [], [], [] => true
  | _, _, _, _, _ => false
  end.

Definition COMMIT_ORDER : list string :=
  ["user-add"; "user-mod"; "group-add"; "group-add-member"; "group-remove-member"].

(** The command lines [commit_changes] runs, in order. *)
Definition commit_changes (changes : plan) : list (list string) :=
  flat_map (fun command =>
              map (fun '(primary_key, args) =>
                     ["ipa"; "--no-prompt"; command; primary_key] ++ args)
                  (plan_category changes command))
           COMMIT_ORDER.

(** [main] up to the confirmation prompt. [query login] is the entry that
    [fix_ipa_groups(query_ipa(...))] yields for [login] (the empty entry when
    [ipa user-show] fails), [status] the exit status of [ipa group-show]. *)
Definition main_plan (raws : list raw_entry) (query : string -> ipa_entry)
  (status : string -> Z) : plan :=
  let '(csv_entries, group_descriptions) := fix_csv_group_names raws in
  let csv_entries := fix_csv_zero_entries (fix_csv_emails csv_entries) in
  let ipa_entries := map query (map user_login csv_entries) in
  let ch := find_user_differences csv_entries ipa_entries in
  {| plan_user_add := user_add ch; plan_user_mod := user_mod ch;
     plan_group_add := find_group_changes ch group_descriptions status;
     plan_group_add_member := group_add_member ch;
     plan_group_remove_member := group_remove_member ch |}.

(** The user-not-found entry [{}]. *)
Definition ipa_absent : ipa_entry := {| ipa_fields := []; ipa_member_of_groups := None |}.

Definition u_umlaut : ascii := ascii_of_nat 252.

(** The label "B(u-umlaut)ro" in latin-1. *)
Definition buero_label : string := String.append "B" (String u_umlaut "ro").

(** The spec's example row: [jdoe, Jane, Doe, 0, groups "B(u-umlaut)ro/Team"]. *)
Definition jdoe_row : raw_entry :=
  {| r_user_login := "jdoe"; r_first_name := "Jane"; r_last_name := "Doe";
     r_email_address := "0"; r_telephone_number := ""; r_mobile_telephone_number := "";
     r_member_of_groups := String.append buero_label "/Team" |}.

Definition jdoe_status (g : string) : Z := if String.eqb g "ipausers" then 0%Z else 2%Z.

(** A row that only carries a login and a group field. *)
Definition row_with_groups (login groups : string) : raw_entry :=
  {| r_user_login := login; r_first_name := ""; r_last_name := "";
     r_email_address := ""; r_telephone_number := ""; r_mobile_telephone_number := "";
     r_member_of_groups := groups |}.

(** A normalised import entry and a directory record for it. *)
Definition jdoe_entry : csv_entry :=
  {| user_login := "jdoe"; first_name := "Jane"; last_name := "Doe";
     email_address := ""; telephone_number := ""; mobile_telephone_number := "";
     member_of_groups := ["buero"; "team"] |}.

Definition jdoe_directory : ipa_entry :=
  {| ipa_fields := [("first_name", "Janet"); ("last_name", " Doe ")];
     ipa_member_of_groups := Some ["ipausers"; "staff"] |}.

(** A second import entry sharing the group [team] with [jdoe_entry]. *)
Definition asmith_entry : csv_entry :=
  {| user_login := "asmith"; first_name := "Anna"; last_name := "Smith";
     email_address := ""; telephone_number := ""; mobile_telephone_number := "";
     member_of_groups := ["team"] |}.

(** Changes asking to add a member to group [g]. *)
Definition one_member_changes : changes :=
  {| user_mod := []; user_add := []; group_add_member := [("g", ["--users=u"])];
     group_remove_member := [] |}.

(** A plan with one user to add and one membership to add. *)
Definition two_step_plan : plan :=
  {| plan_user_add := [("jdoe", ["--first=Jane"])]; plan_user_mod := [];
     plan_group_add := []; plan_group_add_member := [("buero", ["--users=jdoe"])];
     plan_group_remove_member := [] |}.

(** ** Vocabulary for the properties *)

(** The entries [main] passes to [find_user_differences]. *)
Definition prepared_entries (raws : list raw_entry) : list csv_entry :=
  fix_csv_zero_entries (fix_csv_emails (fst (fix_csv_group_names raws))).

(** The tracked attributes whose trimmed values differ. *)
Definition changed_attrs (new : csv_entry) (old : ipa_entry) : list (string * string) :=
  filter (fun '(key, _) => negb (String.eqb (strip (csv_get new key)) (strip (ipa_get old key))))
         IPA_CMDLINE_MAP.

(** A directory record [o] of the user of import entry [e] once a plan has
    been applied: the record is a found user (a true dict, whatever other
    keys [ipa user-show --all] lists), every tracked attribute strips to the
    imported trimmed value, and its groups together with the default groups
    are, as a set, the imported groups together with the default groups. *)
Definition applied_record (e : csv_entry) (o : ipa_entry) : Prop :=
  ipa_truthy o = true /\
  (forall key cmdline_key, In (key, cmdline_key) IPA_CMDLINE_MAP ->
     strip (ipa_get o key) = strip (csv_get e key)) /\
  (forall g, In g (set_union (ipa_groups o) DEFAULT_GROUPS) <->
             In g (set_union (member_of_groups e) DEFAULT_GROUPS)).

(** A record of [jdoe_entry] as [ipa user-show --all] would list it after the
    plan ran: extra keys, an untrimmed value and another group order. *)
Definition jdoe_after_apply : ipa_entry :=
  {| ipa_fields := [("user_login", "jdoe"); ("first_name", "Jane"); ("last_name", "Doe ");
                    ("home_directory", "/home/jdoe"); ("uid", "1001")];
     ipa_member_of_groups := Some ["team"; "ipausers"; "buero"] |}.

(** The command an [ipa] command line runs, and its category rank. *)
Definition command_of (argv : list string) : string := nth 2 argv "".

Fixpoint index_of (x : string) (l : list string) : nat :=
  match l with
  | [] => 0
  | y :: l' => if String.eqb x y then 0 else S (index_of x l')
  end.

Definition cmd_rank (command : string) : nat := index_of command COMMIT_ORDER.

(** The command lines of one category, as [commit_changes] issues them. *)
Definition category_calls (command : string) (d : dict (list string)) : list (list string) :=
  map (fun '(primary_key, args) => ["ipa"; "--no-prompt"; command; primary_key] ++ args) d.

(** The value of a [defaultdict(list)] entry. *)
Definition get_list (k : string) (d : dict (list string)) : list string :=
  match dict_get k d with Some l => l | None => [] end.

Definition pair_login (p : csv_entry * ipa_entry) : string := user_login (fst p).

Definition desc_args (group_descriptions : dict string) (group : string) : list string :=
  match dict_get group group_descriptions with
  | Some d => [String.append "--desc=" d]
  | None => []
  end.

Definition count_slash (l : list ascii) : nat := List.length (filter (fun c => Ascii.eqb c slash) l).

Definition sum_counts (ws : list (list ascii)) : nat := fold_right (fun w n => count_slash w + n) 0 ws.

Ltac all_chars c := destruct c as [[] [] [] [] [] [] [] []]; vm_compute; repeat split.

Definition row_groups (r : raw_entry) : list string :=
  set_of (filter nonempty (group_names_of (r_member_of_groups r))).

Definition row_pairs (r : raw_entry) : list (string * string) :=
  combine (group_names_of (r_member_of_groups r)) (original_segments_of (r_member_of_groups r)).

(** Characters of a canonical group id: [a-z], [0-9], ['_'] and ['-']. *)
Definition id_char (c : ascii) : bool :=
  let n := code c in
  ((97 <=? n) && (n <=? 122)) || ((48 <=? n) && (n <=? 57)) || (n =? 95) || (n =? 45).

Definition is_upper (c : ascii) : bool := let n := code c in (65 <=? n) && (n <=? 90).

(** The umlaut replacements and the NFKD/ASCII step of [fix_csv_group_names]. *)
Definition fold_marks (g : list ascii) : list ascii :=
  flat_map nfkd_ascii_char
    (replace_char 252 (chars [117; 101])
       (replace_char 246 (chars [111; 101]) (replace_char 228 (chars [97; 101]) g))).

(** The tracked optional fields of an entry, as [fix_csv_zero_entries] lists them. *)
Definition optional_fields (e : csv_entry) : list string :=
  [email_address e; telephone_number e; mobile_telephone_number e].

(** A sample [ipa user-show] output. *)
Definition sample_user_show : string :=
  String.append "  User login: jdoe" (String newline
  (String.append "  First name: Jane" (String newline
   "  Member of groups: ipausers, staff"))).

(** Every list of a membership dict is duplicate-free and holds the
    [--users=] flags of logins in [done]. *)
Definition members_ok (d : dict (list string)) (done : list string) : Prop :=
  forall g l, dict_get g d = Some l ->
  NoDup l /\ forall x, In x l -> exists u, In u done /\ x = users_flag u.


(** ** Generic lemmas: dicts *)

Lemma dict_get_app {V} (k k' : string) (v : V) (d : dict V) :
  dict_get k (d ++ [(k', v)]) =
  match dict_get k d with Some x => Some x | None => if String.eqb k k' then Some v else None end.
Proof.
  induction d as [|[k0 v0] d IH]; simpl; [reflexivity|].
  destruct (String.eqb k k0); auto.
Qed.

Lemma dict_get_replace {V} (k k' : string) (v : V) (d : dict V) :
  dict_get k (dict_replace k' v d) =
  if String.eqb k k' then match dict_get k d with Some _ => Some v | None => None end
  else dict_get k d.
Proof.
  induction d as [|[k0 v0] d IH]; simpl.
  - destruct (String.eqb k k'); reflexivity.
  - destruct (String.eqb_spec k' k0) as [->|Hne]; simpl.
    + destruct (String.eqb k k0); reflexivity.
    + rewrite IH. destruct (String.eqb_spec k k') as [->|Hk]; [|reflexivity].
      apply String.eqb_neq in Hne. rewrite Hne. reflexivity.
Qed.

Lemma dict_get_set {V} (k k' : string) (v : V) (d : dict V) :
  dict_get k (dict_set k' v d) = if String.eqb k k' then Some v else dict_get k d.
Proof.
  unfold dict_set. destruct (dict_get k' d) eqn:E.
  - rewrite dict_get_replace. destruct (String.eqb_spec k k') as [->|]; [rewrite E|]; reflexivity.
  - rewrite dict_get_app. destruct (String.eqb_spec k k') as [->|]; [rewrite E; reflexivity|].
    destruct (dict_get k d); reflexivity.
Qed.

Lemma dict_keys_replace {V} (k : string) (v : V) (d : dict V) :
  dict_keys (dict_replace k v d) = dict_keys d.
Proof.
  induction d as [|[k0 v0] d IH]; simpl; [reflexivity|].
  destruct (String.eqb k k0); simpl; [|rewrite IH]; reflexivity.
Qed.

Lemma dict_keys_set {V} (x k : string) (v : V) (d : dict V) :
  In x (dict_keys (dict_set k v d)) <-> x = k \/ In x (dict_keys d).
Proof.
  assert (Hget : forall d' : dict V, dict_get k d' <> None -> In k (dict_keys d')).
  { induction d' as [|[k0 v0] d' IH]; simpl; [congruence|].
    destruct (String.eqb_spec k k0); auto. }
  unfold dict_set. destruct (dict_get k d) eqn:E.
  - rewrite dict_keys_replace. split; [auto|]. intros [->|H]; auto.
    apply Hget. congruence.
  - unfold dict_keys. rewrite map_app, in_app_iff. simpl. intuition.
Qed.

Lemma dict_get_update_notin {V} (k : string) (d : dict V) (l : list (string * V)) :
  ~ In k (map fst l) -> dict_get k (dict_update d l) = dict_get k d.
Proof.
  unfold dict_update. revert d.
  induction l as [|[k0 v0] l IH]; intros d Hn; simpl; [reflexivity|].
  simpl in Hn. rewrite IH by tauto. rewrite dict_get_set.
  destruct (String.eqb_spec k k0) as [->|]; [tauto|reflexivity].
Qed.

Lemma dict_keys_update {V} (x : string) (d : dict V) (l : list (string * V)) :
  In x (dict_keys (dict_update d l)) <-> In x (dict_keys d) \/ In x (map fst l).
Proof.
  unfold dict_update. revert d.
  induction l as [|[k0 v0] l IH]; intros d; simpl; [tauto|].
  rewrite IH, dict_keys_set. intuition (subst; auto).
Qed.

Lemma dict_update_app {V} (d : dict V) (l1 l2 : list (string * V)) :
  dict_update d (l1 ++ l2) = dict_update (dict_update d l1) l2.
Proof. unfold dict_update. apply fold_left_app. Qed.

Lemma dict_update_cons {V} (d : dict V) (k : string) (v : V) (l : list (string * V)) :
  dict_update d ((k, v) :: l) = dict_update (dict_set k v d) l.
Proof. reflexivity. Qed.

Lemma dict_get_append (k k' x : string) (d : dict (list string)) :
  dict_get k (dict_append k' x d) =
  if String.eqb k k' then Some (get_list k' d ++ [x]) else dict_get k d.
Proof.
  unfold dict_append, get_list. destruct (dict_get k' d); rewrite dict_get_set; reflexivity.
Qed.

Lemma dict_keys_append (y k x : string) (d : dict (list string)) :
  In y (dict_keys (dict_append k x d)) <-> y = k \/ In y (dict_keys d).
Proof.
  unfold dict_append. destruct (dict_get k d); apply dict_keys_set.
Qed.

(** ** Generic lemmas: sets *)

Lemma mem_In (x : string) (l : list string) : mem x l = true <-> In x l.
Proof.
  unfold mem. rewrite existsb_exists. split.
  - intros (y & Hy & E). apply String.eqb_eq in E. subst. exact Hy.
  - intros H. exists x. split; [exact H|apply String.eqb_refl].
Qed.

Lemma mem_false (x : string) (l : list string) : mem x l = false <-> ~ In x l.
Proof.
  rewrite <- mem_In. destruct (mem x l); split; congruence.
Qed.

Lemma set_union_In (x : string) (a b : list string) :
  In x (set_union a b) <-> In x a \/ In x b.
Proof.
  unfold set_union. rewrite in_app_iff, filter_In, Bool.negb_true_iff, mem_false.
  split; [tauto|]. intros [H|H]; [auto|]. destruct (in_dec String.string_dec x a); auto.
Qed.

Lemma set_diff_In (x : string) (a b : list string) :
  In x (set_diff a b) <-> In x a /\ ~ In x b.
Proof.
  unfold set_diff. rewrite filter_In, Bool.negb_true_iff, mem_false. tauto.
Qed.

Lemma set_union_NoDup (a b : list string) : NoDup a -> NoDup b -> NoDup (set_union a b).
Proof.
  intros Ha Hb. unfold set_union. apply NoDup_app; [exact Ha|apply NoDup_filter, Hb|].
  intros x Hx Hf. apply filter_In in Hf as [_ Hf].
  apply Bool.negb_true_iff, mem_false in Hf. contradiction.
Qed.

Lemma set_of_In (x : string) (l : list string) : In x (set_of l) <-> In x l.
Proof.
  revert x. induction l as [|y l IH]; intros x; simpl; [tauto|].
  destruct (mem y (set_of l)) eqn:E.
  - apply mem_In in E. rewrite IH in *. split; [auto|]. intros [->|H]; auto.
  - simpl. rewrite IH. tauto.
Qed.

(** ** Generic lemmas: [str.strip] is idempotent *)

Lemma drop_while_idem (p : ascii -> bool) (l : list ascii) :
  drop_while p (drop_while p l) = drop_while p l.
Proof.
  induction l as [|c l IH]; simpl; [reflexivity|].
  destruct (p c) eqn:E; [exact IH|simpl; rewrite E; reflexivity].
Qed.

Lemma drop_while_prefix (p : ascii -> bool) (l : list ascii) :
  exists pre, l = pre ++ drop_while p l.
Proof.
  induction l as [|c l IH]; simpl; [exists []; reflexivity|].
  destruct (p c).
  - destruct IH as [pre Hpre]. exists (c :: pre). simpl. f_equal. exact Hpre.
  - exists []. reflexivity.
Qed.

Lemma drop_while_head (p : ascii -> bool) (l : list ascii) :
  drop_while p l = [] \/ exists c t, drop_while p l = c :: t /\ p c = false.
Proof.
  induction l as [|c l IH]; simpl; [auto|].
  destruct (p c) eqn:E; [exact IH|right; eauto].
Qed.

Lemma strip_list_idem (p : ascii -> bool) (l : list ascii) :
  strip_list p (strip_list p l) = strip_list p l.
Proof.
  unfold strip_list.
  set (m := drop_while p l).
  set (r := rev (drop_while p (rev m))).
  assert (Hr : drop_while p r = r).
  { destruct (drop_while_prefix p (rev m)) as [pre Hpre].
    assert (Hm : m = r ++ rev pre).
    { unfold r. rewrite <- (rev_involutive m) at 1. rewrite Hpre at 1.
      rewrite rev_app_distr. reflexivity. }
    destruct (drop_while_head p l) as [H0|(c & t & Hct & Hc)].
    - fold m in H0. rewrite H0 in Hm. destruct r; [reflexivity|discriminate].
    - fold m in Hct. rewrite Hct in Hm. destruct r as [|c' r']; [reflexivity|].
      simpl in Hm. injection Hm as -> _. simpl. rewrite Hc. reflexivity. }
  rewrite Hr. unfold r. rewrite rev_involutive, drop_while_idem. reflexivity.
Qed.

Lemma strip_idem (s : string) : strip (strip s) = strip s.
Proof.
  unfold strip, strip_by. rewrite list_ascii_of_string_of_list_ascii, strip_list_idem.
  reflexivity.
Qed.

Lemma set_diff_nil (a b : list string) : (forall x, In x a -> In x b) -> set_diff a b = [].
Proof.
  intros H. unfold set_diff. induction a as [|x a IH]; simpl; [reflexivity|].
  assert (Hx : mem x b = true) by (apply mem_In, H; left; reflexivity).
  rewrite Hx. simpl. apply IH. intros y Hy. apply H. right. exact Hy.
Qed.

(** ** One step of [find_user_differences] *)

Lemma add_members_notin (u g : string) (gs : list string) (d : dict (list string)) :
  ~ In g gs -> dict_get g (add_members u gs d) = dict_get g d.
Proof.
  unfold add_members. revert d.
  induction gs as [|g0 gs IH]; intros d Hn; simpl; [reflexivity|].
  simpl in Hn. rewrite IH by tauto. rewrite dict_get_append.
  destruct (String.eqb_spec g g0) as [->|]; [tauto|reflexivity].
Qed.

Lemma add_members_in (u g : string) (gs : list string) (d : dict (list string)) :
  NoDup gs -> In g gs -> dict_get g (add_members u gs d) = Some (get_list g d ++ [users_flag u]).
Proof.
  unfold add_members. revert d.
  induction gs as [|g0 gs IH]; intros d Hnd Hin; [destruct Hin|].
  inversion Hnd as [|? ? Hg0 Hnd']; subst. simpl.
  destruct Hin as [->|Hin].
  - fold (add_members u gs (dict_append g (users_flag u) d)).
    rewrite add_members_notin by exact Hg0. rewrite dict_get_append, String.eqb_refl.
    reflexivity.
  - rewrite IH by assumption. unfold get_list at 1. rewrite dict_get_append.
    destruct (String.eqb_spec g g0) as [->|]; [contradiction|reflexivity].
Qed.

Lemma add_members_keys (u y : string) (gs : list string) (d : dict (list string)) :
  In y (dict_keys (add_members u gs d)) <-> In y gs \/ In y (dict_keys d).
Proof.
  unfold add_members. revert d.
  induction gs as [|g0 gs IH]; intros d; simpl; [tauto|].
  rewrite IH, dict_keys_append. intuition (subst; auto).
Qed.

Lemma diff_one_user_mod (ch : changes) (new : csv_entry) (old : ipa_entry) :
  user_mod (diff_one ch (new, old)) =
  if ipa_truthy old then
    match user_changes new old with
    | [] => user_mod ch
    | uc => dict_set (user_login new) uc (user_mod ch)
    end
  else user_mod ch.
Proof.
  unfold diff_one. destruct (ipa_truthy old); [destruct (user_changes new old)|]; reflexivity.
Qed.

Lemma diff_one_user_add (ch : changes) (new : csv_entry) (old : ipa_entry) :
  user_add (diff_one ch (new, old)) =
  if ipa_truthy old then user_add ch
  else dict_set (user_login new) (user_add_args new) (user_add ch).
Proof.
  unfold diff_one. destruct (ipa_truthy old); [destruct (user_changes new old)|]; reflexivity.
Qed.

Lemma diff_one_group_add_member (ch : changes) (new : csv_entry) (old : ipa_entry) :
  group_add_member (diff_one ch (new, old)) =
  add_members (user_login new)
    (set_diff (set_union (member_of_groups new) DEFAULT_GROUPS)
              (set_union (ipa_groups old) DEFAULT_GROUPS))
    (group_add_member ch).
Proof.
  unfold diff_one. destruct (ipa_truthy old); [destruct (user_changes new old)|]; reflexivity.
Qed.

Lemma diff_one_group_remove_member (ch : changes) (new : csv_entry) (old : ipa_entry) :
  group_remove_member (diff_one ch (new, old)) =
  add_members (user_login new)
    (set_diff (set_union (ipa_groups old) DEFAULT_GROUPS)
              (set_union (member_of_groups new) DEFAULT_GROUPS))
    (group_remove_member ch).
Proof.
  unfold diff_one. destruct (ipa_truthy old); [destruct (user_changes new old)|]; reflexivity.
Qed.

Lemma flat_map_all_nil {A B} (f : A -> list B) (l : list A) :
  (forall x, In x l -> f x = []) -> flat_map f l = [].
Proof.
  induction l as [|x l IH]; intros H; simpl; [reflexivity|].
  rewrite (H x (or_introl eq_refl)), IH; [reflexivity|]. intros y Hy. apply H. right. exact Hy.
Qed.

(** A user whose directory record already is an applied one changes nothing. *)
Lemma diff_one_applied (ch : changes) (e : csv_entry) (o : ipa_entry) :
  applied_record e o -> diff_one ch (e, o) = ch.
Proof.
  intros [Ht [Ha Hg]].
  assert (Huc : user_changes e o = []).
  { unfold user_changes. apply flat_map_all_nil. intros [key cmd] Hin.
    rewrite (Ha key cmd Hin), String.eqb_refl. reflexivity. }
  destruct ch as [um ua gam grm].
  unfold diff_one. rewrite Ht, Huc.
  rewrite !set_diff_nil; [reflexivity| |]; intros x Hx; apply Hg; exact Hx.
Qed.

Lemma combine_map_self {A B} (f : A -> B) (l : list A) :
  combine l (map f l) = map (fun x => (x, f x)) l.
Proof. induction l as [|x l IH]; simpl; [reflexivity|rewrite IH; reflexivity]. Qed.

Lemma fold_diff_one_applied (P : list (csv_entry * ipa_entry)) (ch : changes) :
  (forall p, In p P -> applied_record (fst p) (snd p)) -> fold_left diff_one P ch = ch.
Proof.
  revert ch. induction P as [|[e o] P IH]; intros ch H; cbn [fold_left]; [reflexivity|].
  rewrite diff_one_applied by exact (H (e, o) (or_introl eq_refl)).
  apply IH. intros p Hp. apply H. right. exact Hp.
Qed.

(** ** Sorted traces *)

Lemma strongly_sorted_nth {A} (f : A -> nat) (l : list A) :
  StronglySorted (fun x y => f x <= f y) l ->
  forall i j a b, nth_error l i = Some a -> nth_error l j = Some b -> f a < f b -> i < j.
Proof.
  induction 1 as [|x l Hs IH Hf]; intros i j a b Hi Hj Hlt.
  - destruct i; discriminate.
  - rewrite Forall_forall in Hf.
    destruct i as [|i], j as [|j]; simpl in Hi, Hj.
    + injection Hi as <-. injection Hj as <-. lia.
    + lia.
    + injection Hj as <-. apply nth_error_In in Hi. specialize (Hf a Hi). lia.
    + specialize (IH i j a b Hi Hj Hlt). lia.
Qed.

Lemma strongly_sorted_app {A} (R : A -> A -> Prop) (l1 l2 : list A) :
  StronglySorted R l1 -> StronglySorted R l2 ->
  (forall x y, In x l1 -> In y l2 -> R x y) -> StronglySorted R (l1 ++ l2).
Proof.
  induction 1 as [|x l1 Hs IH Hf]; intros H2 H; simpl; [exact H2|].
  constructor.
  - apply IH; [exact H2|]. intros y z Hy Hz. apply H; simpl; auto.
  - apply Forall_app. split; [exact Hf|].
    apply Forall_forall. intros y Hy. apply H; simpl; auto.
Qed.

Lemma strongly_sorted_const {A} (f : A -> nat) (c : nat) (l : list A) :
  (forall x, In x l -> f x = c) -> StronglySorted (fun x y => f x <= f y) l.
Proof.
  induction l as [|x l IH]; intros H; constructor.
  - apply IH. intros y Hy. apply H. right. exact Hy.
  - apply Forall_forall. intros y Hy.
    rewrite (H x (or_introl eq_refl)), (H y (or_intror Hy)). lia.
Qed.

Lemma flat_map_sorted {A B} (g : B -> list A) (f : A -> nat) (rk : B -> nat) (cs : list B) :
  StronglySorted (fun c d => rk c <= rk d) cs ->
  (forall c x, In c cs -> In x (g c) -> f x = rk c) ->
  StronglySorted (fun x y => f x <= f y) (flat_map g cs).
Proof.
  induction 1 as [|c cs Hs IH Hf]; intros H; simpl; [constructor|].
  rewrite Forall_forall in Hf.
  apply strongly_sorted_app.
  - apply (strongly_sorted_const f (rk c)). intros x Hx. apply H; simpl; auto.
  - apply IH. intros c' x Hc' Hx. apply H; simpl; auto.
  - intros x y Hx Hy. apply in_flat_map in Hy as (c' & Hc' & Hy).
    rewrite (H c x (or_introl eq_refl) Hx), (H c' y (or_intror Hc') Hy).
    apply Hf. exact Hc'.
Qed.

Lemma commit_order_sorted : StronglySorted (fun c d => cmd_rank c <= cmd_rank d) COMMIT_ORDER.
Proof.
  unfold COMMIT_ORDER.
  repeat (apply SSorted_cons; [|repeat (apply Forall_cons; [vm_compute; lia|]); apply Forall_nil]).
  apply SSorted_nil.
Qed.

Lemma commit_changes_sorted (p : plan) :
  StronglySorted (fun x y => cmd_rank (command_of x) <= cmd_rank (command_of y)) (commit_changes p).
Proof.
  apply (flat_map_sorted _ (fun x => cmd_rank (command_of x)) cmd_rank).
  - exact commit_order_sorted.
  - intros c x _ Hx. apply in_map_iff in Hx as ([pk args] & <- & _). reflexivity.
Qed.

(** ** The loop of [find_user_differences] *)

Lemma fold_user_mod_notin (P : list (csv_entry * ipa_entry)) (ch : changes) (k : string) :
  ~ In k (map pair_login P) ->
  dict_get k (user_mod (fold_left diff_one P ch)) = dict_get k (user_mod ch).
Proof.
  revert ch. induction P as [|[new old] P IH]; intros ch Hn; cbn [fold_left]; [reflexivity|].
  simpl in Hn. rewrite IH by tauto. rewrite diff_one_user_mod.
  destruct (ipa_truthy old); [|reflexivity].
  destruct (user_changes new old); [reflexivity|].
  rewrite dict_get_set. destruct (String.eqb_spec k (user_login new)) as [->|]; [tauto|reflexivity].
Qed.

Lemma fold_user_mod_keys (P : list (csv_entry * ipa_entry)) (ch : changes) (k : string) :
  In k (dict_keys (user_mod (fold_left diff_one P ch))) ->
  In k (dict_keys (user_mod ch)) \/
  exists new old, In (new, old) P /\ user_login new = k /\ ipa_truthy old = true.
Proof.
  revert ch. induction P as [|[new old] P IH]; intros ch Hk; cbn [fold_left] in Hk; [auto|].
  destruct (IH _ Hk) as [H|(n & o & Hin & Hl & Ht)].
  - rewrite diff_one_user_mod in H.
    destruct (ipa_truthy old) eqn:Et; [|auto].
    destruct (user_changes new old); [auto|].
    apply dict_keys_set in H as [->|H]; [right; exists new, old; simpl; auto|auto].
  - right. exists n, o. simpl. auto.
Qed.

Lemma fold_user_add_keys (P : list (csv_entry * ipa_entry)) (ch : changes) (k : string) :
  In k (dict_keys (user_add (fold_left diff_one P ch))) ->
  In k (dict_keys (user_add ch)) \/
  exists new old, In (new, old) P /\ user_login new = k /\ ipa_truthy old = false.
Proof.
  revert ch. induction P as [|[new old] P IH]; intros ch Hk; cbn [fold_left] in Hk; [auto|].
  destruct (IH _ Hk) as [H|(n & o & Hin & Hl & Ht)].
  - rewrite diff_one_user_add in H.
    destruct (ipa_truthy old) eqn:Et; [auto|].
    apply dict_keys_set in H as [->|H]; [right; exists new, old; simpl; auto|auto].
  - right. exists n, o. simpl. auto.
Qed.

Lemma fold_group_member_keys (P : list (csv_entry * ipa_entry)) (ch : changes) (g : string) :
  (In g (dict_keys (group_add_member (fold_left diff_one P ch))) ->
   In g (dict_keys (group_add_member ch)) \/
   exists new old, In (new, old) P /\
     In g (set_diff (set_union (member_of_groups new) DEFAULT_GROUPS)
                    (set_union (ipa_groups old) DEFAULT_GROUPS))) /\
  (In g (dict_keys (group_remove_member (fold_left diff_one P ch))) ->
   In g (dict_keys (group_remove_member ch)) \/
   exists new old, In (new, old) P /\
     In g (set_diff (set_union (ipa_groups old) DEFAULT_GROUPS)
                    (set_union (member_of_groups new) DEFAULT_GROUPS))).
Proof.
  revert ch. induction P as [|[new old] P IH]; intros ch; cbn [fold_left]; [auto|].
  destruct (IH (diff_one ch (new, old))) as [IH1 IH2]. split; intros Hk.
  - destruct (IH1 Hk) as [H|(n & o & Hin & Hg)]; [|right; exists n, o; simpl; auto].
    rewrite diff_one_group_add_member, add_members_keys in H.
    destruct H as [H|H]; [right; exists new, old; simpl; auto|auto].
  - destruct (IH2 Hk) as [H|(n & o & Hin & Hg)]; [|right; exists n, o; simpl; auto].
    rewrite diff_one_group_remove_member, add_members_keys in H.
    destruct H as [H|H]; [right; exists new, old; simpl; auto|auto].
Qed.

Lemma nth_error_combine {A B} (l1 : list A) (l2 : list B) (i : nat) (a : A) (b : B) :
  nth_error l1 i = Some a -> nth_error l2 i = Some b -> nth_error (combine l1 l2) i = Some (a, b).
Proof.
  revert l2 i. induction l1 as [|x l1 IH]; intros l2 i H1 H2; [destruct i; discriminate|].
  destruct l2 as [|y l2]; [destruct i; discriminate|].
  destruct i as [|i]; simpl in *; [congruence|]. apply IH; assumption.
Qed.

Lemma NoDup_combine_logins (csv : list csv_entry) (ipa : list ipa_entry) :
  NoDup (map user_login csv) -> NoDup (map pair_login (combine csv ipa)).
Proof.
  revert ipa. induction csv as [|x csv IH]; intros ipa Hnd; simpl; [constructor|].
  destruct ipa as [|y ipa]; simpl; [constructor|].
  inversion Hnd as [|? ? Hx Hnd']; subst. constructor; [|apply IH, Hnd'].
  intros Hin. apply in_map_iff in Hin as ([n o] & Hl & Hp).
  apply in_combine_l in Hp. apply Hx. apply in_map_iff. exists n. split; [exact Hl|exact Hp].
Qed.

Lemma NoDup_map_eq {A B} (f : A -> B) (l : list A) (a b : A) :
  NoDup (map f l) -> In a l -> In b l -> f a = f b -> a = b.
Proof.
  induction l as [|x l IH]; intros Hnd Ha Hb Hf; [destruct Ha|].
  inversion Hnd as [|? ? Hx Hnd']; subst.
  destruct Ha as [<-|Ha], Hb as [<-|Hb]; auto.
  - exfalso. apply Hx. rewrite Hf. apply in_map. exact Hb.
  - exfalso. apply Hx. rewrite <- Hf. apply in_map. exact Ha.
Qed.

Lemma user_changes_spec (new : csv_entry) (old : ipa_entry) :
  user_changes new old =
  map (fun '(key, cmdline_key) => flag cmdline_key (strip (csv_get new key))) (changed_attrs new old).
Proof.
  unfold user_changes, changed_attrs. generalize IPA_CMDLINE_MAP.
  induction l as [|[key ck] l IH]; simpl; [reflexivity|].
  destruct (String.eqb (strip (csv_get new key)) (strip (ipa_get old key))); simpl; rewrite IH;
    reflexivity.
Qed.

Lemma logins_fix_csv_group_names_aux (d : dict string) (raws : list raw_entry) :
  map user_login (fst (fix_csv_group_names_aux d raws)) = map r_user_login raws.
Proof.
  revert d. induction raws as [|r raws IH]; intros d; simpl; [reflexivity|].
  match goal with |- context [fix_csv_group_names_aux ?d' raws] =>
    specialize (IH d'); destruct (fix_csv_group_names_aux d' raws) as [rest dd] end.
  simpl in *. rewrite IH. reflexivity.
Qed.

Lemma logins_prepared (raws : list raw_entry) :
  map user_login (prepared_entries raws) = map r_user_login raws.
Proof.
  unfold prepared_entries, fix_csv_zero_entries, fix_csv_emails.
  rewrite !map_map. simpl. rewrite <- logins_fix_csv_group_names_aux with (d := []).
  reflexivity.
Qed.

(** ** The loop of [find_group_changes] *)

Lemma fold_group_changes (descs : dict string) (status : string -> Z) (ks : list string)
  (acc : dict (list string)) (g : string) :
  dict_get g (fold_left (fun acc group =>
      if negb (Z.eqb (status group) 0) then dict_set group (desc_args descs group) acc else acc)
    ks acc) =
  if mem g ks && negb (Z.eqb (status g) 0) then Some (desc_args descs g) else dict_get g acc.
Proof.
  revert acc. induction ks as [|k ks IH]; intros acc; simpl; [reflexivity|].
  rewrite IH. unfold mem at 1. simpl. fold (mem g ks).
  destruct (String.eqb_spec g k) as [->|Hne]; simpl.
  - destruct (Z.eqb (status k) 0); simpl.
    + rewrite !Bool.andb_false_r. reflexivity.
    + rewrite !Bool.andb_true_r. destruct (mem k ks); [reflexivity|].
      rewrite dict_get_set, String.eqb_refl. reflexivity.
  - destruct (mem g ks && negb (Z.eqb (status g) 0)); [reflexivity|].
    destruct (negb (Z.eqb (status k) 0)); [|reflexivity].
    rewrite dict_get_set. apply String.eqb_neq in Hne. rewrite Hne. reflexivity.
Qed.

Lemma checked_fold (descs : dict string) (call : string -> option Z) (status : string -> Z)
  (ks : list string) (oacc : option (dict (list string))) :
  (forall g st, call g = Some st -> status g = st) ->
  fold_left
    (fun acc group =>
       match acc with
       | None => None
       | Some acc =>
           match call group with
           | None => None
           | Some status =>
               Some (if negb (Z.eqb status 0) then
                       dict_set group
                         (match dict_get group descs with
                          | Some d => [String.append "--desc=" d]
                          | None => []
                          end) acc
                     else acc)
           end
       end) ks oacc =
  match oacc with
  | None => None
  | Some acc =>
      if existsb (fun g => match call g with None => true | Some _ => false end) ks then None
      else Some (fold_left (fun acc group =>
               if negb (Z.eqb (status group) 0) then dict_set group (desc_args descs group) acc
               else acc) ks acc)
  end.
Proof.
  intros Hs. revert oacc. induction ks as [|k ks IH]; intros oacc; simpl.
  - destruct oacc; reflexivity.
  - rewrite IH. destruct oacc as [acc|]; [|reflexivity].
    destruct (call k) as [st|] eqn:Ec; simpl; [|reflexivity].
    rewrite (Hs k st Ec). reflexivity.
Qed.

Lemma find_group_changes_spec (ch : changes) (descs : dict string) (status : string -> Z)
  (g : string) :
  dict_get g (find_group_changes ch descs status) =
  if mem g (dict_keys (group_add_member ch)) && negb (Z.eqb (status g) 0)
  then Some (desc_args descs g) else None.
Proof.
  unfold find_group_changes. rewrite <- (fold_group_changes descs status _ [] g).
  reflexivity.
Qed.

Lemma find_group_changes_keys (ch : changes) (descs : dict string) (status : string -> Z)
  (g : string) :
  In g (dict_keys (find_group_changes ch descs status)) -> In g (dict_keys (group_add_member ch)).
Proof.
  unfold find_group_changes.
  assert (H : forall ks acc, In g (dict_keys (fold_left (fun acc group =>
      if negb (Z.eqb (status group) 0) then dict_set group
        (match dict_get group descs with Some d => [String.append "--desc=" d] | None => [] end)
        acc else acc) ks acc)) -> In g ks \/ In g (dict_keys acc)).
  { induction ks as [|k ks IH]; intros acc Hg; simpl in *; [auto|].
    destruct (IH _ Hg) as [H|H]; [auto|].
    destruct (negb (Z.eqb (status k) 0)); [|auto].
    apply dict_keys_set in H as [->|H]; auto. }
  intros Hg. destruct (H _ _ Hg) as [H'|[]]. exact H'.
Qed.

(** ** Normalisation keeps the number of group separators *)

Lemma count_slash_cons (c : ascii) (l : list ascii) :
  count_slash (c :: l) = (if Ascii.eqb c slash then 1 else 0) + count_slash l.
Proof. unfold count_slash. simpl. destruct (Ascii.eqb c slash); reflexivity. Qed.

Lemma count_slash_app (a b : list ascii) : count_slash (a ++ b) = count_slash a + count_slash b.
Proof. unfold count_slash. rewrite filter_app, length_app. reflexivity. Qed.

Lemma count_slash_rev (l : list ascii) : count_slash (rev l) = count_slash l.
Proof.
  induction l as [|c l IH]; simpl; [reflexivity|].
  rewrite count_slash_app, IH, !count_slash_cons. change (count_slash []) with 0. lia.
Qed.

Lemma length_split_sep (cur l : list ascii) :
  List.length (split_sep_aux slash cur l) = S (count_slash l).
Proof.
  revert cur. induction l as [|c l IH]; intros cur; simpl; [reflexivity|].
  rewrite count_slash_cons. destruct (Ascii.eqb c slash); simpl; rewrite IH; reflexivity.
Qed.

Lemma is_space_not_slash (c : ascii) : is_space c = true -> Ascii.eqb c slash = false.
Proof.
  intros H. destruct (Ascii.eqb_spec c slash) as [->|]; [discriminate|reflexivity].
Qed.

Lemma split_ws_counts (cur l : list ascii) :
  sum_counts (split_ws_aux cur l) = count_slash cur + count_slash l.
Proof.
  revert cur. induction l as [|c l IH]; intros cur; simpl.
  - destruct cur as [|c cur]; simpl; [reflexivity|].
    rewrite count_slash_app, count_slash_rev, !count_slash_cons.
    change (count_slash []) with 0. lia.
  - rewrite count_slash_cons. destruct (is_space c) eqn:E.
    + rewrite (is_space_not_slash c E).
      destruct cur as [|c' cur]; simpl; rewrite IH; [reflexivity|].
      rewrite count_slash_app, count_slash_rev, !count_slash_cons.
      change (count_slash []) with 0. lia.
    + rewrite IH, count_slash_cons. lia.
Qed.

Lemma join_counts (sep : list ascii) (ws : list (list ascii)) :
  count_slash sep = 0 -> count_slash (join sep ws) = sum_counts ws.
Proof.
  intros Hs. induction ws as [|w ws IH]; [reflexivity|].
  destruct ws as [|w' ws]; simpl; [lia|].
  simpl in IH. rewrite !count_slash_app, Hs, IH. reflexivity.
Qed.

Lemma flat_map_counts (f : ascii -> list ascii) (l : list ascii) :
  (forall c, count_slash (f c) = count_slash [c]) -> count_slash (flat_map f l) = count_slash l.
Proof.
  intros Hf. induction l as [|c l IH]; simpl; [reflexivity|].
  rewrite count_slash_app, IH, Hf, !count_slash_cons. change (count_slash []) with 0. lia.
Qed.

Lemma lower_char_slash (c : ascii) : Ascii.eqb (lower_char c) slash = Ascii.eqb c slash.
Proof. all_chars c. Qed.

Lemma replace_umlauts_slash (c : ascii) :
  count_slash (if code c =? 228 then chars [97; 101] else [c]) = count_slash [c] /\
  count_slash (if code c =? 246 then chars [111; 101] else [c]) = count_slash [c] /\
  count_slash (if code c =? 252 then chars [117; 101] else [c]) = count_slash [c].
Proof. all_chars c. Qed.

Lemma nfkd_slash (c : ascii) : count_slash (nfkd_ascii_char c) = count_slash [c].
Proof. all_chars c. Qed.

Lemma normalize_group_field_slashes (s : string) :
  count_slash (normalize_group_field s) = count_slash (list_ascii_of_string s).
Proof.
  unfold normalize_group_field.
  assert (Hfilter : forall l, count_slash (filter group_char l) = count_slash l).
  { induction l as [|c l IH]; simpl; [reflexivity|].
    destruct (group_char c) eqn:E; rewrite !count_slash_cons, ?IH; [reflexivity|].
    destruct (Ascii.eqb_spec c slash) as [->|]; [discriminate|reflexivity]. }
  assert (Hlower : forall l, count_slash (map lower_char l) = count_slash l).
  { induction l as [|c l IH]; simpl; [reflexivity|].
    rewrite !count_slash_cons, IH, lower_char_slash. reflexivity. }
  unfold replace_char.
  rewrite Hfilter, flat_map_counts by apply nfkd_slash.
  rewrite !flat_map_counts by apply replace_umlauts_slash.
  rewrite Hlower, join_counts by reflexivity.
  rewrite split_ws_counts. reflexivity.
Qed.

Lemma group_names_length (s : string) :
  List.length (group_names_of s) = List.length (original_segments_of s).
Proof.
  unfold group_names_of, original_segments_of, to_strings.
  rewrite !length_map, !length_split_sep, normalize_group_field_slashes. reflexivity.
Qed.

(** ** The loop of [fix_csv_group_names] *)

Lemma fix_csv_group_names_entries (d : dict string) (raws : list raw_entry) :
  fst (fix_csv_group_names_aux d raws) = map (fun r => to_csv_entry r (row_groups r)) raws.
Proof.
  revert d. induction raws as [|r raws IH]; intros d; simpl; [reflexivity|].
  match goal with |- context [fix_csv_group_names_aux ?d' raws] =>
    specialize (IH d'); destruct (fix_csv_group_names_aux d' raws) as [rest dd] end.
  simpl in *. rewrite IH. reflexivity.
Qed.

Lemma fix_csv_group_names_catalog (d : dict string) (raws : list raw_entry) :
  snd (fix_csv_group_names_aux d raws) =
  fold_left (fun acc r => dict_update acc (row_pairs r)) raws d.
Proof.
  revert d. induction raws as [|r raws IH]; intros d; simpl; [reflexivity|].
  match goal with |- context [fix_csv_group_names_aux ?d' raws] =>
    specialize (IH d'); destruct (fix_csv_group_names_aux d' raws) as [rest dd] end.
  simpl in *. rewrite IH. reflexivity.
Qed.

Lemma map_fst_combine_eq {A B} (a : list A) (b : list B) :
  List.length a = List.length b -> map fst (combine a b) = a.
Proof.
  revert b. induction a as [|x a IH]; intros [|y b] H; simpl in *; try discriminate; [reflexivity|].
  rewrite IH by lia. reflexivity.
Qed.

Lemma row_pairs_keys (r : raw_entry) : map fst (row_pairs r) = group_names_of (r_member_of_groups r).
Proof. apply map_fst_combine_eq, group_names_length. Qed.

Lemma catalog_keys_fold (raws : list raw_entry) (d : dict string) (k : string) :
  In k (dict_keys (fold_left (fun acc r => dict_update acc (row_pairs r)) raws d)) <->
  In k (dict_keys d) \/ exists r, In r raws /\ In k (group_names_of (r_member_of_groups r)).
Proof.
  revert d. induction raws as [|r raws IH]; intros d; simpl.
  - split; [auto|]. intros [H|(r & [] & _)]. exact H.
  - rewrite IH, dict_keys_update, row_pairs_keys. split.
    + intros [[H|H]|(r' & Hr' & H)]; [auto|right; exists r; auto|right; exists r'; auto].
    + intros [H|(r' & Hr & H)]; [left; left; exact H|].
      destruct Hr as [Hr|Hr]; [subst r'; left; right; exact H|right; exists r'; auto].
Qed.

Lemma catalog_fold_notin (raws : list raw_entry) (d : dict string) (k : string) :
  (forall r, In r raws -> ~ In k (group_names_of (r_member_of_groups r))) ->
  dict_get k (fold_left (fun acc r => dict_update acc (row_pairs r)) raws d) = dict_get k d.
Proof.
  revert d. induction raws as [|r raws IH]; intros d H; simpl; [reflexivity|].
  rewrite IH by (intros r' Hr'; apply H; right; exact Hr').
  apply dict_get_update_notin. rewrite row_pairs_keys. apply H. left. reflexivity.
Qed.

Lemma nth_error_firstn_skipn {A} (l : list A) (n : nat) (x : A) :
  nth_error l n = Some x -> l = firstn n l ++ x :: skipn (S n) l.
Proof.
  revert n. induction l as [|y l IH]; intros [|n] H; simpl in *; try discriminate.
  - injection H as ->. reflexivity.
  - f_equal. apply IH. exact H.
Qed.

Lemma skipn_combine {A B} (n : nat) (a : list A) (b : list B) :
  skipn n (combine a b) = combine (skipn n a) (skipn n b).
Proof.
  revert a b. induction n as [|n IH]; intros a b; [reflexivity|].
  destruct a as [|x a], b as [|y b]; simpl; try reflexivity.
  - destruct (skipn n a); reflexivity.
  - apply IH.
Qed.

Lemma in_map_fst_combine {A B} (x : A) (a : list A) (b : list B) :
  In x (map fst (combine a b)) -> In x a.
Proof.
  intros H. apply in_map_iff in H as ([u v] & <- & H). apply in_combine_l in H. exact H.
Qed.

(** ** [main] *)

Lemma main_plan_query_ext (raws : list raw_entry) (q1 q2 : string -> ipa_entry) (s : string -> Z) :
  (forall e, In e (prepared_entries raws) -> q1 (user_login e) = q2 (user_login e)) ->
  main_plan raws q1 s = main_plan raws q2 s.
Proof.
  unfold main_plan, prepared_entries. destruct (fix_csv_group_names raws) as [es d].
  simpl. intros H.
  assert (Hq : map q1 (map user_login (fix_csv_zero_entries (fix_csv_emails es))) =
               map q2 (map user_login (fix_csv_zero_entries (fix_csv_emails es)))).
  { rewrite !map_map. apply map_ext_in. exact H. }
  rewrite Hq. reflexivity.
Qed.

Lemma main_plan_status_indep (raws : list raw_entry) (q : string -> ipa_entry) (s1 s2 : string -> Z) :
  plan_user_add (main_plan raws q s1) = plan_user_add (main_plan raws q s2) /\
  plan_user_mod (main_plan raws q s1) = plan_user_mod (main_plan raws q s2) /\
  plan_group_add_member (main_plan raws q s1) = plan_group_add_member (main_plan raws q s2).
Proof.
  unfold main_plan. destruct (fix_csv_group_names raws) as [es d]. auto.
Qed.

Lemma main_plan_group_add (raws : list raw_entry) (q : string -> ipa_entry) (s : string -> Z)
  (g : string) :
  dict_get g (plan_group_add (main_plan raws q s)) =
  if mem g (dict_keys (plan_group_add_member (main_plan raws q s))) && negb (Z.eqb (s g) 0)
  then Some (desc_args (snd (fix_csv_group_names raws)) g) else None.
Proof.
  unfold main_plan. destruct (fix_csv_group_names raws) as [es d].
  apply find_group_changes_spec.
Qed.

(** * The claims *)

(** C1 (corrected).  [find_group_changes] fails only when a call of
    [ipa group-show] raises (the command cannot be started): the exception
    reaches the caller.  When every call returns, any non-zero exit status
    -- the group is missing, or the check itself failed -- schedules the
    group for creation: a group of [group-add-member] gets a [group-add]
    entry exactly when its status is non-zero, with its description when the
    catalog has one. *)
Theorem group_add_iff_nonzero_status (ch : changes) (descs : dict string)
  (call : string -> option Z) :
  (find_group_changes_checked ch descs call = None <->
     exists g, In g (dict_keys (group_add_member ch)) /\ call g = None) /\
  (forall d, find_group_changes_checked ch descs call = Some d ->
   forall g, dict_get g d =
     if mem g (dict_keys (group_add_member ch)) then
       match call g with
       | Some st => if Z.eqb st 0 then None else Some (desc_args descs g)
       | None => None
       end
     else None).
Proof.
  set (status := fun g => match call g with Some st => st | None => 0%Z end).
  set (ks := dict_keys (group_add_member ch)).
  unfold find_group_changes_checked. fold ks.
  rewrite (checked_fold descs call status ks (Some []))
    by (intros g st; unfold status; intros ->; reflexivity).
  destruct (existsb (fun g => match call g with None => true | Some _ => false end) ks) eqn:E.
  - apply existsb_exists in E as [g [Hg Hc]].
    split; [split; [intros _; exists g; split; [exact Hg|]; destruct (call g); [discriminate|reflexivity]|reflexivity]|].
    discriminate.
  - split.
    + split; [discriminate|]. intros [g [Hg Hc]].
      assert (Hf : existsb (fun g => match call g with None => true | Some _ => false end) ks = true)
        by (apply existsb_exists; exists g; rewrite Hc; split; [exact Hg|reflexivity]).
      congruence.
    + intros d [= <-] g. rewrite fold_group_changes. simpl.
      destruct (mem g ks) eqn:Em; [|reflexivity]. simpl. unfold status.
      destruct (call g) as [st|] eqn:Ec.
      * destruct (Z.eqb st 0); reflexivity.
      * exfalso. apply mem_In in Em.
        assert (Hf : existsb (fun g => match call g with None => true | Some _ => false end) ks = true)
          by (apply existsb_exists; exists g; rewrite Ec; split; [exact Em|reflexivity]).
        congruence.
Qed.

(** C1, counterexample: the check for group [g] fails (exit status 1, as
    [ipa] reports an unreachable server); nothing reaches the caller and [g]
    is scheduled for creation.  Only a call that cannot start fails the run. *)
Lemma failed_check_schedules_group_add :
  find_group_changes_checked one_member_changes [("g", "G")] (fun _ => Some 1%Z) =
    Some [("g", ["--desc=G"])] /\
  find_group_changes_checked one_member_changes [("g", "G")] (fun _ => None) = None.
Proof. split; reflexivity. Qed.

(** C2.  [commit_changes] runs the categories in the order user-add,
    user-mod, group-add, group-add-member, group-remove-member: an operation
    of an earlier category is always issued before one of a later category. *)
Theorem commit_categories_in_order (p : plan) (i j : nat) (a b : list string) :
  nth_error (commit_changes p) i = Some a ->
  nth_error (commit_changes p) j = Some b ->
  cmd_rank (command_of a) < cmd_rank (command_of b) -> i < j.
Proof.
  intros Ha Hb Hlt.
  exact (strongly_sorted_nth _ _ (commit_changes_sorted p) i j a b Ha Hb Hlt).
Qed.

Lemma commit_categories_in_order_witness :
  nth_error (commit_changes two_step_plan) 0 =
    Some ["ipa"; "--no-prompt"; "user-add"; "jdoe"; "--first=Jane"] /\
  nth_error (commit_changes two_step_plan) 1 =
    Some ["ipa"; "--no-prompt"; "group-add-member"; "buero"; "--users=jdoe"] /\
  0 < 1.
Proof.
  split; [reflexivity|]. split; [reflexivity|].
  apply (commit_categories_in_order two_step_plan 0 1
           ["ipa"; "--no-prompt"; "user-add"; "jdoe"; "--first=Jane"]
           ["ipa"; "--no-prompt"; "group-add-member"; "buero"; "--users=jdoe"]);
    [reflexivity|reflexivity|vm_compute; lia].
Defined.

(** C3.  Idempotence: when every imported user's directory record is an
    applied one -- a found user, whatever other keys it has, whose tracked
    attributes strip to the imported trimmed values and whose groups are,
    up to order and the default groups, the imported groups -- [main] finds
    no change at all. *)
Theorem rerun_after_apply_is_empty (raws : list raw_entry) (query : string -> ipa_entry)
  (status : string -> Z) :
  (forall e, In e (prepared_entries raws) -> applied_record e (query (user_login e))) ->
  plan_is_empty (main_plan raws query status) = true.
Proof.
  intros H. unfold prepared_entries in H. unfold main_plan.
  destruct (fix_csv_group_names raws) as [es descs]. simpl in H.
  unfold find_user_differences.
  rewrite map_map, (combine_map_self (fun e => query (user_login e))), fold_diff_one_applied.
  - reflexivity.
  - intros p Hp. apply in_map_iff in Hp as [e [<- He]]. exact (H e He).
Qed.

Lemma rerun_after_apply_is_empty_witness :
  (forall e, In e (prepared_entries [jdoe_row]) ->
     applied_record e ((fun _ : string => jdoe_after_apply) (user_login e))) /\
  plan_is_empty (main_plan [jdoe_row] (fun _ => jdoe_after_apply) jdoe_status) = true.
Proof.
  assert (Hp : prepared_entries [jdoe_row] = [jdoe_entry]) by (vm_compute; reflexivity).
  assert (H : forall e, In e (prepared_entries [jdoe_row]) ->
                applied_record e ((fun _ : string => jdoe_after_apply) (user_login e))).
  { rewrite Hp. intros e [<-|[]]. split; [reflexivity|]. split.
    - intros key cmd Hin. simpl in Hin.
      repeat destruct Hin as [[= <- <-]|Hin]; [vm_compute; reflexivity ..|destruct Hin].
    - intros g.
      assert (E1 : set_union (ipa_groups jdoe_after_apply) DEFAULT_GROUPS =
                   ["team"; "ipausers"; "buero"]) by reflexivity.
      assert (E2 : set_union (member_of_groups jdoe_entry) DEFAULT_GROUPS =
                   ["buero"; "team"; "ipausers"]) by reflexivity.
      simpl (user_login jdoe_entry). rewrite E1, E2. simpl. tauto. }
  split; [exact H|]. apply (rerun_after_apply_is_empty [jdoe_row] _ jdoe_status H).
Defined.

(** C4 (corrected).  [group_descriptions.update(...)] overwrites: the
    catalog maps an id to the original segment of its LAST occurrence in
    batch order.  If segment [p] of row [r] normalises to [k] with original
    text [o], and no later segment of [r] nor any segment of a later row
    normalises to [k], the catalog maps [k] to [o]. *)
Theorem catalog_last_occurrence_wins (pre post : list raw_entry) (r : raw_entry) (p : nat)
  (k o : string) :
  nth_error (group_names_of (r_member_of_groups r)) p = Some k ->
  nth_error (original_segments_of (r_member_of_groups r)) p = Some o ->
  ~ In k (skipn (S p) (group_names_of (r_member_of_groups r))) ->
  (forall r', In r' post -> ~ In k (group_names_of (r_member_of_groups r'))) ->
  dict_get k (snd (fix_csv_group_names (pre ++ r :: post))) = Some o.
Proof.
  intros Hk Ho Hlater Hpost.
  unfold fix_csv_group_names. rewrite fix_csv_group_names_catalog, fold_left_app.
  cbn [fold_left]. rewrite catalog_fold_notin by exact Hpost.
  pose proof (nth_error_combine _ _ _ _ _ Hk Ho) as Hc.
  fold (row_pairs r) in Hc.
  rewrite (nth_error_firstn_skipn _ _ _ Hc), dict_update_app, dict_update_cons.
  rewrite dict_get_update_notin.
  - rewrite dict_get_set, String.eqb_refl. reflexivity.
  - unfold row_pairs. rewrite skipn_combine. intros Hin.
    apply in_map_fst_combine in Hin. contradiction.
Qed.

Lemma catalog_last_occurrence_wins_witness :
  nth_error (group_names_of (r_member_of_groups (row_with_groups "b" "team"))) 0 = Some "team" /\
  nth_error (original_segments_of (r_member_of_groups (row_with_groups "b" "team"))) 0 =
    Some "team" /\
  dict_get "team" (snd (fix_csv_group_names
    ([row_with_groups "a" "Team"] ++ row_with_groups "b" "team" :: []))) = Some "team".
Proof.
  split; [vm_compute; reflexivity|]. split; [vm_compute; reflexivity|].
  apply (catalog_last_occurrence_wins [row_with_groups "a" "Team"] [] (row_with_groups "b" "team")
           0 "team" "team").
  - vm_compute. reflexivity.
  - vm_compute. reflexivity.
  - vm_compute. intros [].
  - intros r' [].
Defined.

(** C4, counterexample: "Team" (first row) and "team" (second row) both
    normalise to [team]; the catalog keeps the later label "team", not the
    first one. *)
Lemma catalog_keeps_later_label :
  dict_get "team" (snd (fix_csv_group_names
    [row_with_groups "a" "Team"; row_with_groups "b" "team"])) = Some "team" /\
  dict_get "team" (snd (fix_csv_group_names
    [row_with_groups "a" "Team"; row_with_groups "b" "team"])) <> Some "Team".
Proof. vm_compute. split; [reflexivity|discriminate]. Qed.

(** C5 (corrected).  An empty segment adds nothing to [member_of_groups],
    but [zip(group_names, ...)] still enters it into the catalog under the
    empty key.  The catalog's keys are exactly the ids of the
    [member_of_groups] sets, plus [""] when some row has an empty segment. *)
Theorem catalog_keys_exact (raws : list raw_entry) :
  (forall e, In e (fst (fix_csv_group_names raws)) -> ~ In "" (member_of_groups e)) /\
  (forall k, In k (dict_keys (snd (fix_csv_group_names raws))) <->
     (exists e, In e (fst (fix_csv_group_names raws)) /\ In k (member_of_groups e)) \/
     (k = "" /\ exists r, In r raws /\ In "" (group_names_of (r_member_of_groups r)))).
Proof.
  unfold fix_csv_group_names.
  rewrite fix_csv_group_names_entries, fix_csv_group_names_catalog. split.
  - intros e He. apply in_map_iff in He as (r & <- & _). simpl.
    unfold row_groups. rewrite set_of_In, filter_In. intros [_ H]. discriminate.
  - intros k. rewrite catalog_keys_fold. simpl. split.
    + intros [[]|(r & Hr & Hk)].
      destruct (String.eqb_spec k "") as [->|Hne]; [right; split; [reflexivity|exists r; auto]|].
      left. exists (to_csv_entry r (row_groups r)).
      split; [apply in_map_iff; exists r; split; [reflexivity|exact Hr]|].
      simpl. unfold row_groups. rewrite set_of_In, filter_In. split; [exact Hk|].
      unfold nonempty. apply String.eqb_neq in Hne. rewrite Hne. reflexivity.
    + intros [(e & He & Hk)|(-> & r & Hr & Hk)]; right.
      * apply in_map_iff in He as (r & <- & Hr). exists r. split; [exact Hr|].
        simpl in Hk. unfold row_groups in Hk. rewrite set_of_In, filter_In in Hk. tauto.
      * exists r. auto.
Qed.

(** C5, counterexample: the field "Team/!!!" has the all-punctuation
    segment "!!!"; the member set is just [team], yet the catalog gets the
    key [""] (mapped to "!!!"). *)
Lemma empty_segment_enters_catalog :
  map member_of_groups (fst (fix_csv_group_names [row_with_groups "a" "Team/!!!"])) =
    [["team"]] /\
  dict_get "" (snd (fix_csv_group_names [row_with_groups "a" "Team/!!!"])) = Some "!!!".
Proof. vm_compute. split; reflexivity. Qed.

(** C6 (corrected).  The spec's example row: [jdoe], Jane, Doe, email "0",
    groups "B(u-umlaut)ro/Team", jdoe unknown to the directory.  The umlaut
    step turns u-umlaut into "ue", so the ids are [buero] and [team] (not
    [buro]): jdoe is added with first=Jane, last=Doe and an empty email,
    added to [buero] and [team], and when these groups do not exist they
    are created with descriptions "B(u-umlaut)ro" and "Team". *)
Theorem jdoe_example_plan (query : string -> ipa_entry) (status : string -> Z) :
  query "jdoe" = ipa_absent -> status "buero" <> 0%Z -> status "team" <> 0%Z ->
  dict_get "jdoe" (plan_user_add (main_plan [jdoe_row] query status)) =
    Some ["--first=Jane"; "--last=Doe"; "--email="; "--phone="; "--mobile="] /\
  dict_get "buero" (plan_group_add_member (main_plan [jdoe_row] query status)) =
    Some ["--users=jdoe"] /\
  dict_get "team" (plan_group_add_member (main_plan [jdoe_row] query status)) =
    Some ["--users=jdoe"] /\
  dict_get "buero" (plan_group_add (main_plan [jdoe_row] query status)) =
    Some [String.append "--desc=" buero_label] /\
  dict_get "team" (plan_group_add (main_plan [jdoe_row] query status)) =
    Some ["--desc=Team"].
Proof.
  intros Hq Hb Ht.
  rewrite (main_plan_query_ext [jdoe_row] query (fun _ => ipa_absent)).
  2:{ assert (Hp : map user_login (prepared_entries [jdoe_row]) = ["jdoe"])
        by (vm_compute; reflexivity).
      intros e He. apply (in_map user_login) in He. rewrite Hp in He.
      destruct He as [He|[]]. rewrite <- He, Hq. reflexivity. }
  rewrite !main_plan_group_add.
  apply Z.eqb_neq in Hb. apply Z.eqb_neq in Ht. rewrite Hb, Ht.
  destruct (main_plan_status_indep [jdoe_row] (fun _ => ipa_absent) status (fun _ => 0%Z))
    as (Hua & _ & Hgam).
  rewrite Hua, Hgam. vm_compute. repeat split.
Qed.

Lemma jdoe_example_plan_witness :
  jdoe_status "buero" <> 0%Z /\ jdoe_status "team" <> 0%Z /\
  dict_get "buero" (plan_group_add (main_plan [jdoe_row] (fun _ => ipa_absent) jdoe_status)) =
    Some [String.append "--desc=" buero_label].
Proof.
  split; [discriminate|]. split; [discriminate|].
  apply (jdoe_example_plan (fun _ => ipa_absent) jdoe_status);
    [reflexivity|discriminate|discriminate].
Defined.

(** C6, counterexample: no [group-add-member] entry is keyed "buro"; the
    id is "buero". *)
Lemma jdoe_example_no_buro :
  dict_get "buro" (plan_group_add_member (main_plan [jdoe_row] (fun _ => ipa_absent) jdoe_status))
    = None /\
  dict_get "buero" (plan_group_add_member (main_plan [jdoe_row] (fun _ => ipa_absent) jdoe_status))
    = Some ["--users=jdoe"].
Proof. vm_compute. split; reflexivity. Qed.

(** C7.  For a login present in the directory (entries paired by position,
    logins unique), the [user-mod] entry lists exactly the tracked attributes
    whose trimmed values differ, each with the trimmed imported value, in
    [IPA_CMDLINE_MAP] order; with no differing attribute there is no entry. *)
Theorem user_mod_lists_changed_attrs (csv : list csv_entry) (ipa : list ipa_entry) (i : nat)
  (new : csv_entry) (old : ipa_entry) :
  NoDup (map user_login csv) ->
  nth_error csv i = Some new -> nth_error ipa i = Some old -> ipa_truthy old = true ->
  dict_get (user_login new) (user_mod (find_user_differences csv ipa)) =
  match changed_attrs new old with
  | [] => None
  | cs => Some (map (fun '(key, cmdline_key) => flag cmdline_key (strip (csv_get new key))) cs)
  end.
Proof.
  intros Hnd Hi Ho Ht. unfold find_user_differences.
  pose proof (nth_error_combine _ _ _ _ _ Hi Ho) as Hc.
  apply nth_error_split in Hc as (P1 & P2 & HP & _).
  pose proof (NoDup_combine_logins csv ipa Hnd) as Hnd'.
  rewrite HP, map_app in Hnd'. simpl in Hnd'. apply NoDup_remove_2 in Hnd'.
  rewrite in_app_iff in Hnd'. unfold pair_login at 1 in Hnd'. simpl in Hnd'.
  rewrite HP, fold_left_app. cbn [fold_left].
  rewrite fold_user_mod_notin by tauto.
  rewrite diff_one_user_mod, Ht, user_changes_spec.
  assert (H0 : dict_get (user_login new) (user_mod (fold_left diff_one P1 empty_changes)) = None).
  { rewrite fold_user_mod_notin by tauto. reflexivity. }
  destruct (changed_attrs new old) as [|c cs]; simpl; [exact H0|].
  destruct c as [key ck]. rewrite dict_get_set, String.eqb_refl. reflexivity.
Qed.

Lemma user_mod_lists_changed_attrs_witness :
  NoDup (map user_login [jdoe_entry]) /\ ipa_truthy jdoe_directory = true /\
  dict_get "jdoe" (user_mod (find_user_differences [jdoe_entry] [jdoe_directory])) =
    Some ["--first=Jane"].
Proof.
  assert (Hnd : NoDup (map user_login [jdoe_entry])).
  { simpl. constructor; [intros []|constructor]. }
  split; [exact Hnd|]. split; [reflexivity|].
  apply (user_mod_lists_changed_attrs [jdoe_entry] [jdoe_directory] 0 jdoe_entry jdoe_directory);
    [exact Hnd|reflexivity|reflexivity|reflexivity].
Defined.

(** C8.  For every user, with [I = import groups | DEFAULT_GROUPS] and
    [D = directory groups | DEFAULT_GROUPS], the user is appended to
    [group-add-member] exactly for the groups of [I - D] and to
    [group-remove-member] exactly for those of [D - I].  Hence no default
    group is ever a key of either map, and a user whose import and directory
    groups agree outside the default groups produces no membership delta. *)
Theorem membership_deltas (ch : changes) (new : csv_entry) (old : ipa_entry) :
  NoDup (member_of_groups new) -> NoDup (ipa_groups old) ->
  (forall g,
     dict_get g (group_add_member (diff_one ch (new, old))) =
     if mem g (set_union (member_of_groups new) DEFAULT_GROUPS)
        && negb (mem g (set_union (ipa_groups old) DEFAULT_GROUPS))
     then Some (get_list g (group_add_member ch) ++ [users_flag (user_login new)])
     else dict_get g (group_add_member ch)) /\
  (forall g,
     dict_get g (group_remove_member (diff_one ch (new, old))) =
     if mem g (set_union (ipa_groups old) DEFAULT_GROUPS)
        && negb (mem g (set_union (member_of_groups new) DEFAULT_GROUPS))
     then Some (get_list g (group_remove_member ch) ++ [users_flag (user_login new)])
     else dict_get g (group_remove_member ch)) /\
  (forall csv ipa g, In g DEFAULT_GROUPS ->
     ~ In g (dict_keys (group_add_member (find_user_differences csv ipa))) /\
     ~ In g (dict_keys (group_remove_member (find_user_differences csv ipa)))) /\
  ((forall g, ~ In g DEFAULT_GROUPS -> (In g (member_of_groups new) <-> In g (ipa_groups old))) ->
   group_add_member (diff_one ch (new, old)) = group_add_member ch /\
   group_remove_member (diff_one ch (new, old)) = group_remove_member ch).
Proof.
  intros Hn Ho.
  assert (HD : NoDup DEFAULT_GROUPS) by (constructor; [intros []|constructor]).
  assert (Hdelta : forall (a b : list string) (d : dict (list string)) (g : string),
    NoDup a ->
    dict_get g (add_members (user_login new) (set_diff a b) d) =
    if mem g a && negb (mem g b)
    then Some (get_list g d ++ [users_flag (user_login new)]) else dict_get g d).
  { intros a b d g Ha. destruct (mem g a && negb (mem g b)) eqn:Eb.
    - apply add_members_in; [apply NoDup_filter, Ha|].
      apply Bool.andb_true_iff in Eb as [E1 E2]. apply Bool.negb_true_iff in E2.
      apply set_diff_In. split; [apply mem_In, E1|apply mem_false, E2].
    - apply add_members_notin. intros Hin. apply set_diff_In in Hin as [H1 H2].
      apply mem_In in H1. apply mem_false in H2. rewrite H1, H2 in Eb. discriminate. }
  split; [|split; [|split]].
  - intros g. rewrite diff_one_group_add_member. apply Hdelta, set_union_NoDup; assumption.
  - intros g. rewrite diff_one_group_remove_member. apply Hdelta, set_union_NoDup; assumption.
  - intros csv ipa g Hg. unfold find_user_differences.
    destruct (fold_group_member_keys (combine csv ipa) empty_changes g) as [H1 H2].
    split.
    + intros Hk. destruct (H1 Hk) as [[]|(n & o & _ & Hin)].
      apply set_diff_In in Hin as [_ Hin]. apply Hin, set_union_In. right. exact Hg.
    + intros Hk. destruct (H2 Hk) as [[]|(n & o & _ & Hin)].
      apply set_diff_In in Hin as [_ Hin]. apply Hin, set_union_In. right. exact Hg.
  - intros Hsame.
    rewrite diff_one_group_add_member, diff_one_group_remove_member.
    rewrite !set_diff_nil; [split; reflexivity| |];
      intros x Hx; rewrite set_union_In in *;
      (destruct (in_dec String.string_dec x DEFAULT_GROUPS) as [Hd|Hd]; [right; exact Hd|]);
      left; destruct Hx as [Hx|Hx]; [apply Hsame; assumption|contradiction| |contradiction];
      apply Hsame; assumption.
Qed.

Lemma membership_deltas_witness :
  NoDup (member_of_groups jdoe_entry) /\ NoDup (ipa_groups jdoe_directory) /\
  dict_get "staff" (group_remove_member (diff_one empty_changes (jdoe_entry, jdoe_directory))) =
    Some ["--users=jdoe"].
Proof.
  assert (H1 : NoDup (member_of_groups jdoe_entry)).
  { simpl. constructor; [simpl; intros [H|[]]; discriminate|constructor; [intros []|constructor]]. }
  assert (H2 : NoDup (ipa_groups jdoe_directory)).
  { simpl. constructor; [simpl; intros [H|[]]; discriminate|constructor; [intros []|constructor]]. }
  split; [exact H1|]. split; [exact H2|].
  destruct (membership_deltas empty_changes jdoe_entry jdoe_directory H1 H2) as (_ & Hrm & _).
  rewrite Hrm. vm_compute. reflexivity.
Defined.

(** C9.  With unique logins, no login is a key of both [user-add] and
    [user-mod], and every key of [group-add] is a key of
    [group-add-member]. *)
Theorem plan_invariants (raws : list raw_entry) (query : string -> ipa_entry)
  (status : string -> Z) :
  NoDup (map r_user_login raws) ->
  (forall k, ~ (In k (dict_keys (plan_user_add (main_plan raws query status))) /\
                In k (dict_keys (plan_user_mod (main_plan raws query status))))) /\
  (forall g, In g (dict_keys (plan_group_add (main_plan raws query status))) ->
             In g (dict_keys (plan_group_add_member (main_plan raws query status)))).
Proof.
  intros Hnd.
  pose proof (logins_prepared raws) as Hl. unfold prepared_entries in Hl.
  unfold main_plan. destruct (fix_csv_group_names raws) as [es descs]. simpl in Hl |- *.
  set (es' := fix_csv_zero_entries (fix_csv_emails es)) in *.
  split.
  - intros k [Ha Hm]. unfold find_user_differences in Ha, Hm.
    apply fold_user_add_keys in Ha as [[]|(n1 & o1 & H1 & L1 & T1)].
    apply fold_user_mod_keys in Hm as [[]|(n2 & o2 & H2 & L2 & T2)].
    assert (Hnd' : NoDup (map user_login es')) by (rewrite Hl; exact Hnd).
    pose proof (NoDup_map_eq pair_login _ _ _ (NoDup_combine_logins _ _ Hnd') H1 H2) as E.
    unfold pair_login in E. simpl in E. rewrite L1, L2 in E.
    specialize (E eq_refl). injection E as _ <-. congruence.
  - intros g Hg. apply find_group_changes_keys in Hg. exact Hg.
Qed.

Lemma plan_invariants_witness :
  NoDup (map r_user_login [jdoe_row]) /\
  (forall g, In g (dict_keys (plan_group_add (main_plan [jdoe_row] (fun _ => ipa_absent) jdoe_status))) ->
     In g (dict_keys (plan_group_add_member (main_plan [jdoe_row] (fun _ => ipa_absent) jdoe_status)))).
Proof.
  assert (Hnd : NoDup (map r_user_login [jdoe_row])) by (simpl; constructor; [intros []|constructor]).
  split; [exact Hnd|].
  exact (proj2 (plan_invariants [jdoe_row] (fun _ => ipa_absent) jdoe_status Hnd)).
Defined.

(** C10.  [zip(csv_entries, ipa_entries)] pairs the sequences by position and
    stops at the shorter one: CSV entries past the end of the directory
    sequence contribute nothing at all. *)
Theorem unpaired_csv_entries_dropped (csv : list csv_entry) (ipa : list ipa_entry) :
  find_user_differences csv ipa = find_user_differences (firstn (List.length ipa) csv) ipa.
Proof.
  unfold find_user_differences. rewrite (combine_firstn_r csv ipa). reflexivity.
Qed.

(** * Further properties of the code *)

(** ** [read_csv_file] *)

Lemma read_csv_line_None (line : list string) :
  read_csv_line line = None <-> List.length line < 13.
Proof.
  unfold read_csv_line. split.
  - intros H. destruct (Nat.lt_ge_cases (List.length line) 13) as [|Hge]; [assumption|].
    exfalso.
    destruct (nth_error line 12) eqn:E12; [|apply nth_error_None in E12; lia].
    destruct (nth_error line 5) eqn:E5; [|apply nth_error_None in E5; lia].
    destruct (nth_error line 6) eqn:E6; [|apply nth_error_None in E6; lia].
    destruct (nth_error line 7) eqn:E7; [|apply nth_error_None in E7; lia].
    destruct (nth_error line 8) eqn:E8; [|apply nth_error_None in E8; lia].
    destruct (nth_error line 9) eqn:E9; [|apply nth_error_None in E9; lia].
    destruct (nth_error line 10) eqn:E10; [|apply nth_error_None in E10; lia].
    discriminate.
  - intros H. assert (E : nth_error line 12 = None) by (apply nth_error_None; lia).
    rewrite E. reflexivity.
Qed.

Lemma read_csv_lines_spec (lines : list (list string)) :
  (read_csv_lines lines <> None <-> forall line, In line lines -> 13 <= List.length line) /\
  (forall es, read_csv_lines lines = Some es -> List.length es = List.length lines).
Proof.
  induction lines as [|line lines [IH1 IH2]]; simpl.
  - split; [split; [intros _ _ []|discriminate]|intros es [= <-]; reflexivity].
  - destruct (read_csv_line line) as [r|] eqn:Er.
    + assert (Hl : 13 <= List.length line).
      { destruct (Nat.lt_ge_cases (List.length line) 13) as [Hlt|]; [|assumption].
        apply read_csv_line_None in Hlt. congruence. }
      destruct (read_csv_lines lines) as [es|] eqn:Es.
      * split.
        -- split; [|discriminate]. intros _ l [<-|Hin]; [exact Hl|].
           apply IH1; [discriminate|exact Hin].
        -- intros es' [= <-]. simpl. f_equal. apply IH2. reflexivity.
      * split; [|discriminate]. split; [intros H; contradiction|].
        intros H _. exact (proj2 IH1 (fun l Hin => H l (or_intror Hin)) eq_refl).
    + split; [|discriminate]. split; [intros H; contradiction|].
      intros H. apply read_csv_line_None in Er. specialize (H line (or_introl eq_refl)). lia.
Qed.

(** [read_csv_file] succeeds exactly when the file has a header row and every
    data row has at least 13 columns; it then yields one entry per data
    row, the header being skipped. *)
Theorem read_csv_file_succeeds_iff (rows : list (list string)) :
  (read_csv_file rows <> None <->
     rows <> [] /\ forall line, In line (tl rows) -> 13 <= List.length line) /\
  (forall es, read_csv_file rows = Some es -> List.length es = List.length rows - 1).
Proof.
  destruct rows as [|header lines]; simpl.
  - split; [split; [intros H; contradiction|intros [H _]; contradiction]|discriminate].
  - destruct (read_csv_lines_spec lines) as [H1 H2]. split.
    + rewrite H1. split; [intros H; split; [discriminate|exact H]|intros [_ H]; exact H].
    + intros es Hes. rewrite (H2 es Hes). lia.
Qed.

(** ** [fix_csv_emails] and [fix_csv_zero_entries] *)

Lemma before_semicolon_spec (s : string) :
  ~ In ";"%char (list_ascii_of_string (before_semicolon s)) /\
  (exists rest, s = String.append (before_semicolon s) rest) /\
  (~ In ";"%char (list_ascii_of_string s) -> before_semicolon s = s).
Proof.
  induction s as [|c s [IH1 [[rest IH2] IH3]]]; simpl.
  - split; [tauto|]. split; [exists ""; reflexivity|reflexivity].
  - destruct (Ascii.eqb_spec c ";"%char) as [->|Hc]; simpl.
    + split; [tauto|]. split; [exists (String ";" s); reflexivity|].
      intros H. exfalso. apply H. left. reflexivity.
    + split; [intros [H|H]; [congruence|exact (IH1 H)]|]. split.
      * exists rest. rewrite <- IH2. reflexivity.
      * intros H. rewrite IH3; [reflexivity|]. intros H'. apply H. right. exact H'.
Qed.

(** [fix_csv_emails] keeps the part of the email field before its first
    [';']: the result is a prefix of the field without any [';'], and an
    entry whose field has no [';'] is left as it is. *)
Theorem fix_csv_email_cuts_at_semicolon (e : csv_entry) :
  ~ In ";"%char (list_ascii_of_string (email_address (fix_csv_email e))) /\
  (exists rest, email_address e = String.append (email_address (fix_csv_email e)) rest) /\
  (~ In ";"%char (list_ascii_of_string (email_address e)) -> fix_csv_email e = e).
Proof.
  destruct (before_semicolon_spec (email_address e)) as [H1 [H2 H3]].
  split; [exact H1|]. split; [exact H2|].
  intros H. unfold fix_csv_email. rewrite (H3 H). destruct e; reflexivity.
Qed.

Lemma zero_to_empty_spec (v : string) :
  strip (zero_to_empty v) <> "0" /\
  (zero_to_empty v = v \/ zero_to_empty v = "").
Proof.
  unfold zero_to_empty. destruct (String.eqb_spec (strip v) "0") as [_|Hv].
  - split; [vm_compute; discriminate|right; reflexivity].
  - split; [exact Hv|left; reflexivity].
Qed.

(** The entries [main] hands to [find_user_differences]: after
    [fix_csv_emails] and then [fix_csv_zero_entries], no email address
    contains [';'] and no email, telephone or mobile field strips to
    ['0']. *)
Theorem prepared_entries_clean (raws : list raw_entry) (e : csv_entry) :
  In e (prepared_entries raws) ->
  ~ In ";"%char (list_ascii_of_string (email_address e)) /\
  (forall v, In v (optional_fields e) -> strip v <> "0").
Proof.
  unfold prepared_entries, fix_csv_zero_entries, fix_csv_emails. rewrite map_map.
  intros Hin. apply in_map_iff in Hin as [e0 [<- _]].
  unfold optional_fields, fix_csv_zero_entry, fix_csv_email. simpl.
  destruct (before_semicolon_spec (email_address e0)) as [Hs _].
  destruct (zero_to_empty_spec (before_semicolon (email_address e0))) as [Z1 [Z1'|Z1']].
  - destruct (zero_to_empty_spec (telephone_number e0)) as [Z2 _].
    destruct (zero_to_empty_spec (mobile_telephone_number e0)) as [Z3 _].
    split; [rewrite Z1'; exact Hs|]. intros v [<-|[<-|[<-|[]]]]; assumption.
  - destruct (zero_to_empty_spec (telephone_number e0)) as [Z2 _].
    destruct (zero_to_empty_spec (mobile_telephone_number e0)) as [Z3 _].
    split; [rewrite Z1'; simpl; tauto|]. intros v [<-|[<-|[<-|[]]]]; assumption.
Qed.

Lemma prepared_entries_clean_witness :
  In jdoe_entry (prepared_entries [jdoe_row]) /\
  ~ In ";"%char (list_ascii_of_string (email_address jdoe_entry)) /\
  (forall v, In v (optional_fields jdoe_entry) -> strip v <> "0").
Proof.
  assert (H : In jdoe_entry (prepared_entries [jdoe_row])) by (vm_compute; left; reflexivity).
  split; [exact H|]. apply (prepared_entries_clean [jdoe_row] jdoe_entry H).
Defined.

(** ** [parse_freeipa_output] and [query_ipa] on bytes *)

Lemma drop_while_all (p : ascii -> bool) (l : list ascii) :
  (forall c, In c l -> p c = true) -> drop_while p l = [].
Proof.
  induction l as [|c l IH]; intros H; simpl; [reflexivity|].
  rewrite (H c (or_introl eq_refl)). apply IH. intros x Hx. apply H. right. exact Hx.
Qed.

Lemma cp_split_colon_None (l : list N) : cp_split_colon l = None <-> ~ In 58%N l.
Proof.
  induction l as [|c l IH]; simpl; [tauto|].
  destruct (N.eqb_spec c 58) as [->|Hc].
  - split; [discriminate|]. intros H. exfalso. apply H. left. reflexivity.
  - destruct (cp_split_colon l) as [[k v]|]; split.
    + discriminate.
    + intros H. exfalso. destruct IH as [_ IH]. assert (E : Some (k, v) = None).
      { apply IH. intros Hin. apply H. right. exact Hin. }
      discriminate.
    + intros _ [H|H]; [congruence|]. destruct IH as [IH _]. exact (IH eq_refl H).
    + intros _. reflexivity.
Qed.

Lemma parse_lines_cp_None (lower : list N -> list N) (d : cp_dict) (lines : list (list N)) :
  parse_lines_cp lower d lines = None <-> exists line, In line lines /\ ~ In 58%N line.
Proof.
  revert d. induction lines as [|line lines IH]; intros d; simpl.
  - split; [discriminate|intros [l [[] _]]].
  - destruct (cp_split_colon line) as [[key val]|] eqn:Es.
    + rewrite IH. split.
      * intros [l [Hin Hn]]. exists l. split; [right; exact Hin|exact Hn].
      * intros [l [[<-|Hin] Hn]]; [|exists l; split; assumption].
        apply cp_split_colon_None in Hn. congruence.
    + split; [|reflexivity]. intros _. exists line. split; [left; reflexivity|].
      apply cp_split_colon_None. exact Es.
Qed.

Lemma cp_drop_space_all (l : list N) :
  (forall c, In c l -> cp_space c = true) -> cp_drop_space l = [].
Proof.
  induction l as [|c l IH]; intros H; simpl; [reflexivity|].
  rewrite (H c (or_introl eq_refl)). apply IH. intros x Hx. apply H. right. exact Hx.
Qed.

(** One element of [query_ipa]: a failed [ipa] command gives [{}]; on the
    command's output, [parse_freeipa_output] raises -- and the exception
    leaves [query_ipa], which catches only [CalledProcessError] -- exactly
    when the bytes are not valid UTF-8, or when they decode to a text of
    which some line of [text.strip().split('\n')] has no [':'].  In
    particular an output that decodes to whitespace only (also the empty
    output) raises.  This holds whatever [str.lower] does. *)
Theorem query_ipa_output_error_iff (lower : list N -> list N) (output : list Byte.byte) :
  query_ipa_bytes lower None = Some [] /\
  (query_ipa_bytes lower (Some output) = None <->
     decode_utf8 output = None \/
     exists text, decode_utf8 output = Some text /\
       exists line, In line (cp_split 10 [] (cp_strip text)) /\ ~ In 58%N line) /\
  (forall text, decode_utf8 output = Some text -> (forall c, In c text -> cp_space c = true) ->
     query_ipa_bytes lower (Some output) = None).
Proof.
  split; [reflexivity|]. unfold query_ipa_bytes, parse_freeipa_output_bytes. split.
  - destruct (decode_utf8 output) as [text|].
    + rewrite parse_lines_cp_None. split.
      * intros H. right. exists text. split; [reflexivity|exact H].
      * intros [H|[t [[= <-] H]]]; [discriminate|exact H].
    + split; [intros _; left; reflexivity|reflexivity].
  - intros text -> H. unfold cp_strip. rewrite (cp_drop_space_all text H). reflexivity.
Qed.

Lemma query_ipa_output_error_iff_witness :
  decode_utf8 [Byte.xc3] = None /\
  query_ipa_bytes lower_ascii (Some [Byte.xc3]) = None /\
  decode_utf8 (list_byte_of_string " ") = Some [32%N] /\
  query_ipa_bytes lower_ascii (Some (list_byte_of_string " ")) = None /\
  query_ipa_bytes lower_ascii None = Some [].
Proof.
  assert (Hd : decode_utf8 [Byte.xc3] = None) by reflexivity.
  assert (Hs : decode_utf8 (list_byte_of_string " ") = Some [32%N]) by reflexivity.
  destruct (query_ipa_output_error_iff lower_ascii [Byte.xc3]) as [Hn [H1 _]].
  destruct (query_ipa_output_error_iff lower_ascii (list_byte_of_string " ")) as [_ [_ H2]].
  split; [exact Hd|]. split; [exact (proj2 H1 (or_introl Hd))|].
  split; [exact Hs|]. split; [|exact Hn].
  apply (H2 [32%N] Hs). intros c [<-|[]]. reflexivity.
Defined.

Lemma cp_dict_replace_In (k k0 v v0 : list N) (d : cp_dict) :
  In (k, v) (cp_dict_replace k0 v0 d) -> In (k, v) d \/ (k = k0 /\ v = v0).
Proof.
  induction d as [|[k' v'] d IH]; simpl; [tauto|].
  unfold cp_eqb. destruct (list_eq_dec N.eq_dec k0 k') as [->|]; simpl.
  - intros [[= -> ->]|H]; [right; split; reflexivity|left; right; exact H].
  - intros [H|H]; [left; left; exact H|]. destruct (IH H) as [H'|H']; [left; right; exact H'|right; exact H'].
Qed.

Lemma cp_dict_set_In (k k0 v v0 : list N) (d : cp_dict) :
  In (k, v) (cp_dict_set k0 v0 d) -> In (k, v) d \/ (k = k0 /\ v = v0).
Proof.
  unfold cp_dict_set. destruct (cp_dict_get k0 d).
  - apply cp_dict_replace_In.
  - intros H. apply in_app_or in H as [H|[[= -> ->]|[]]]; [left; exact H|right; split; reflexivity].
Qed.

Lemma cp_drop_space_prefix (l : list N) : exists pre, l = pre ++ cp_drop_space l.
Proof.
  induction l as [|c l IH]; simpl; [exists []; reflexivity|].
  destruct (cp_space c).
  - destruct IH as [pre Hpre]. exists (c :: pre). simpl. f_equal. exact Hpre.
  - exists []. reflexivity.
Qed.

Lemma cp_drop_space_head (l : list N) :
  cp_drop_space l = [] \/ exists c t, cp_drop_space l = c :: t /\ cp_space c = false.
Proof.
  induction l as [|c l IH]; simpl; [auto|].
  destruct (cp_space c) eqn:E; [exact IH|right; eauto].
Qed.

Lemma cp_strip_idem (l : list N) : cp_strip (cp_strip l) = cp_strip l.
Proof.
  unfold cp_strip at 2 3.
  set (m := cp_drop_space l).
  destruct (cp_drop_space_prefix (rev m)) as [pre Hpre].
  destruct (cp_drop_space_head (rev m)) as [Hs|(d & u & Hs & Hd)]; rewrite Hs; [reflexivity|].
  rewrite Hs in Hpre. simpl rev.
  assert (Hm : m = rev u ++ [d] ++ rev pre).
  { rewrite <- (rev_involutive m), Hpre, rev_app_distr. simpl. rewrite <- app_assoc. reflexivity. }
  assert (Hhead : cp_drop_space (rev u ++ [d]) = rev u ++ [d]).
  { destruct (rev u) as [|a w] eqn:Eu; simpl; [rewrite Hd; reflexivity|].
    destruct (cp_drop_space_head l) as [H0|(c & t & Hct & Hc)].
    - fold m in H0. rewrite H0 in Hm. destruct w; discriminate.
    - fold m in Hct. rewrite Hct in Hm. injection Hm as <- _. rewrite Hc. reflexivity. }
  unfold cp_strip. rewrite Hhead, rev_app_distr. simpl. rewrite Hd, rev_involutive. reflexivity.
Qed.

Lemma parse_lines_cp_ok (lower : list N -> list N) (d : cp_dict) (lines : list (list N))
  (d' : cp_dict) :
  (forall k v, In (k, v) d -> ~ In 32%N k /\ cp_strip v = v) ->
  parse_lines_cp lower d lines = Some d' ->
  forall k v, In (k, v) d' -> ~ In 32%N k /\ cp_strip v = v.
Proof.
  revert d. induction lines as [|line lines IH]; intros d Hd; simpl.
  - intros [= <-]. exact Hd.
  - destruct (cp_split_colon line) as [[key val]|]; [|discriminate].
    apply IH. intros k v Hin. apply cp_dict_set_In in Hin as [Hin|[-> ->]]; [exact (Hd _ _ Hin)|].
    split; [|apply cp_strip_idem].
    unfold normalize_key_cp. intros Hc. apply in_map_iff in Hc as [x [Hx _]].
    destruct (N.eqb_spec x 32); discriminate Hx || (subst x; contradiction).
Qed.

(** Every key of a dict [parse_freeipa_output] returns is free of spaces
    (the [replace(' ', '_')] comes after [lower()]), and every value is
    stripped; this holds whatever [str.lower] does. *)
Theorem parse_freeipa_output_bytes_normalized (lower : list N -> list N)
  (output : list Byte.byte) (entry : cp_dict)
  (Hp : parse_freeipa_output_bytes lower output = Some entry) :
  forall k v, In (k, v) entry -> ~ In 32%N k /\ cp_strip v = v.
Proof.
  unfold parse_freeipa_output_bytes in Hp.
  destruct (decode_utf8 output) as [text|]; [|discriminate].
  exact (parse_lines_cp_ok lower [] _ entry (fun _ _ H => match H with end) Hp).
Qed.

Lemma parse_freeipa_output_bytes_normalized_witness :
  parse_freeipa_output_bytes lower_ascii sample_user_show_bytes =
    Some [(cps "user_login", cps "jdoe");
          (cps "full_name", cps "J" ++ [252%N] ++ cps "rgen Doe");
          (cps "member_of_groups", cps "ipausers, staff")] /\
  forall k v, In (k, v) [(cps "user_login", cps "jdoe");
                        (cps "full_name", cps "J" ++ [252%N] ++ cps "rgen Doe");
                        (cps "member_of_groups", cps "ipausers, staff")] ->
  ~ In 32%N k /\ cp_strip v = v.
Proof.
  assert (Hp : parse_freeipa_output_bytes lower_ascii sample_user_show_bytes =
    Some [(cps "user_login", cps "jdoe");
          (cps "full_name", cps "J" ++ [252%N] ++ cps "rgen Doe");
          (cps "member_of_groups", cps "ipausers, staff")]) by (vm_compute; reflexivity).
  split; [exact Hp|]. exact (parse_freeipa_output_bytes_normalized lower_ascii _ _ Hp).
Defined.

(** ** [fix_ipa_groups] and [query_ipa] *)

Lemma split_comma_space_word (w r cur : list ascii) :
  ~ In ","%char w -> split_comma_space cur (w ++ r) = split_comma_space (rev w ++ cur) r.
Proof.
  revert cur. induction w as [|c w IH]; intros cur Hw; simpl; [reflexivity|].
  destruct (Ascii.eqb_spec c ","%char) as [->|Hc]; [exfalso; apply Hw; left; reflexivity|].
  rewrite IH by (intros H; apply Hw; right; exact H). rewrite <- app_assoc. reflexivity.
Qed.

Lemma split_comma_space_join (ws : list (list ascii)) :
  ws <> [] -> (forall w, In w ws -> ~ In ","%char w) ->
  split_comma_space [] (join [","%char; " "%char] ws) = ws.
Proof.
  induction ws as [|w ws IH]; intros Hne Hw; [contradiction|].
  destruct ws as [|w' ws].
  - simpl. rewrite <- (app_nil_r w) at 1. rewrite split_comma_space_word by (apply Hw; left; reflexivity).
    simpl. rewrite app_nil_r, rev_involutive. reflexivity.
  - change (join [","%char; " "%char] (w :: w' :: ws))
      with (w ++ [","%char; " "%char] ++ join [","%char; " "%char] (w' :: ws)).
    rewrite split_comma_space_word by (apply Hw; left; reflexivity).
    cbn [app split_comma_space Ascii.eqb Bool.eqb].
    rewrite app_nil_r, rev_involutive, IH; [reflexivity|discriminate|].
    intros x Hx. apply Hw. right. exact Hx.
Qed.

(** The group list of an [ipa user-show] output, [', ']-joined group
    names, turns back into the set of the non-empty names, provided no name
    contains [',']. *)
Theorem fix_ipa_group_joined_groups (ids : list string)
  (Hids : forall g, In g ids -> ~ In ","%char (list_ascii_of_string g)) :
  forall g,
  In g (ipa_groups (fix_ipa_group
          [("member_of_groups",
            string_of_list_ascii (join [","%char; " "%char] (map list_ascii_of_string ids)))]))
  <-> In g ids /\ g <> "".
Proof.
  intros g. unfold fix_ipa_group, ipa_groups. simpl.
  rewrite list_ascii_of_string_of_list_ascii, set_of_In, filter_In.
  destruct ids as [|i ids].
  - simpl. unfold nonempty. simpl. split; [intros [[<-|[]] H]; discriminate|intros [[] _]].
  - rewrite split_comma_space_join.
    + unfold to_strings. rewrite map_map.
      rewrite (map_ext _ (fun x => x)) by apply string_of_list_ascii_of_string. rewrite map_id.
      unfold nonempty. rewrite negb_true_iff. rewrite String.eqb_neq. reflexivity.
    + discriminate.
    + intros w Hw. apply in_map_iff in Hw as [x [<- Hx]]. exact (Hids x Hx).
Qed.

Lemma fix_ipa_group_joined_groups_witness :
  (forall g, In g ["ipausers"; "staff"] -> ~ In ","%char (list_ascii_of_string g)) /\
  forall g,
  In g (ipa_groups (fix_ipa_group
          [("member_of_groups",
            string_of_list_ascii (join [","%char; " "%char]
                                       (map list_ascii_of_string ["ipausers"; "staff"])))]))
  <-> In g ["ipausers"; "staff"] /\ g <> "".
Proof.
  assert (H : forall g, In g ["ipausers"; "staff"] -> ~ In ","%char (list_ascii_of_string g)).
  { intros g [<-|[<-|[]]]; simpl; intuition discriminate. }
  split; [exact H|]. exact (fix_ipa_group_joined_groups ["ipausers"; "staff"] H).
Defined.

Lemma dict_get_remove {V} (k k0 : string) (d : dict V) :
  k <> k0 -> dict_get k (dict_remove k0 d) = dict_get k d.
Proof.
  intros Hk. induction d as [|[k' v'] d IH]; simpl; [reflexivity|].
  destruct (String.eqb_spec k0 k') as [->|Hk']; simpl.
  - rewrite IH. apply String.eqb_neq in Hk. rewrite Hk. reflexivity.
  - rewrite IH. reflexivity.
Qed.

Lemma fix_ipa_group_truthy (entry : dict string) :
  ipa_truthy (fix_ipa_group entry) = true <-> entry <> [].
Proof.
  destruct entry as [|[k v] entry]; [split; [discriminate|contradiction]|].
  split; [discriminate|intros _].
  unfold fix_ipa_group, ipa_truthy. cbn [ipa_fields ipa_member_of_groups].
  destruct (dict_remove "member_of_groups" ((k, v) :: entry)) as [|kv r] eqn:Er.
  - unfold dict_remove in Er. cbn [filter] in Er.
    destruct (String.eqb_spec "member_of_groups" k) as [<-|]; [|discriminate].
    cbn [dict_get]. rewrite String.eqb_refl. reflexivity.
  - destruct (dict_get "member_of_groups" ((k, v) :: entry)); reflexivity.
Qed.

(** [fix_ipa_groups] keeps every other field of the entry, and the entry
    is true ([if old:] in [find_user_differences]) exactly when the parsed
    output had a key: a user whose output only lists groups still counts as
    present. *)
Theorem fix_ipa_group_keeps_fields (entry : dict string) :
  (ipa_truthy (fix_ipa_group entry) = true <-> entry <> []) /\
  (forall k, k <> "member_of_groups" -> ipa_get (fix_ipa_group entry) k =
     match dict_get k entry with Some v => v | None => "" end).
Proof.
  split; [apply fix_ipa_group_truthy|].
  intros k Hk. unfold ipa_get, fix_ipa_group. simpl. rewrite dict_get_remove by exact Hk.
  reflexivity.
Qed.

(** A user for whom [ipa user-show] fails gets the empty entry [{}]: it is
    scheduled for [user-add] with all five attributes, its user-mod and
    group-remove-member lists stay as they are, and it is added to exactly
    its imported groups that are not default groups. *)
Theorem failed_lookup_adds_user (ch : changes) (new : csv_entry) :
  query_user None = Some ipa_absent /\
  diff_one ch (new, ipa_absent) =
  {| user_mod := user_mod ch;
     user_add := dict_set (user_login new) (user_add_args new) (user_add ch);
     group_add_member :=
       add_members (user_login new)
         (filter (fun g => negb (mem g DEFAULT_GROUPS)) (member_of_groups new))
         (group_add_member ch);
     group_remove_member := group_remove_member ch |}.
Proof.
  split; [reflexivity|].
  assert (Hd : set_diff (set_union (member_of_groups new) DEFAULT_GROUPS) DEFAULT_GROUPS =
               filter (fun g => negb (mem g DEFAULT_GROUPS)) (member_of_groups new)).
  { unfold set_diff, set_union. rewrite filter_app.
    rewrite (filter_ext_in _ (fun _ => false)
               (filter (fun x => negb (mem x (member_of_groups new))) DEFAULT_GROUPS));
      [rewrite filter_false, app_nil_r; reflexivity|].
    intros x Hx. apply filter_In in Hx as [Hx _]. apply negb_false_iff, mem_In. exact Hx. }
  assert (Hr : set_diff (set_union [] DEFAULT_GROUPS)
                        (set_union (member_of_groups new) DEFAULT_GROUPS) = []).
  { apply set_diff_nil. intros x Hx. apply set_union_In. apply set_union_In in Hx.
    destruct Hx as [[]|Hx]. right. exact Hx. }
  change (set_union [] DEFAULT_GROUPS) with DEFAULT_GROUPS in Hr.
  pose proof (diff_one_user_mod ch new ipa_absent) as H1.
  pose proof (diff_one_user_add ch new ipa_absent) as H2.
  pose proof (diff_one_group_add_member ch new ipa_absent) as H3.
  pose proof (diff_one_group_remove_member ch new ipa_absent) as H4.
  change (ipa_truthy ipa_absent) with false in H1, H2.
  change (set_union (ipa_groups ipa_absent) DEFAULT_GROUPS) with DEFAULT_GROUPS in H3, H4.
  rewrite Hd in H3. rewrite Hr in H4.
  destruct (diff_one ch (new, ipa_absent)) as [a b c d]. cbn in H1, H2, H3, H4.
  rewrite H1, H2, H3, H4. reflexivity.
Qed.

(** ** [main] and [commit_changes] *)

(** [main] stops with "No changes." exactly when [commit_changes] would
    not run any command. *)
Theorem no_changes_iff_no_commands (p : plan) :
  plan_is_empty p = true <-> commit_changes p = [].
Proof.
  destruct p as [ua um ga gam grm]. unfold plan_is_empty, commit_changes. simpl.
  rewrite app_nil_r.
  destruct ua, um, ga, gam, grm; simpl; split; (reflexivity || discriminate || idtac);
  intros H; repeat (destruct p as [? ?] + destruct p0 as [? ?] + idtac); discriminate H.
Qed.

(** ** The group ids of [fix_csv_group_names] *)

Lemma split_sep_chars (sep : ascii) (cur l w : list ascii) (c : ascii) :
  (forall x, In x cur -> x <> sep) -> In w (split_sep_aux sep cur l) -> In c w ->
  c <> sep /\ (In c cur \/ In c l).
Proof.
  revert cur. induction l as [|x l IH]; intros cur Hcur Hw Hc; simpl in Hw.
  - destruct Hw as [<-|[]]. apply in_rev in Hc. split; [exact (Hcur c Hc)|left; exact Hc].
  - destruct (Ascii.eqb_spec x sep) as [Hx|Hx].
    + destruct Hw as [<-|Hw].
      * apply in_rev in Hc. split; [exact (Hcur c Hc)|left; exact Hc].
      * destruct (IH [] (fun _ H => match H with end) Hw Hc) as [Hs [[]|Hl]].
        split; [exact Hs|right; right; exact Hl].
    + assert (Hcur' : forall y, In y (x :: cur) -> y <> sep)
        by (intros y [<-|Hy]; [exact Hx|exact (Hcur y Hy)]).
      destruct (IH (x :: cur) Hcur' Hw Hc) as [Hs [[<-|Hl]|Hl]];
        (split; [exact Hs|]); simpl; tauto.
Qed.

Lemma fold_marks_app (a b : list ascii) : fold_marks (a ++ b) = fold_marks a ++ fold_marks b.
Proof. unfold fold_marks, replace_char. rewrite !flat_map_app. reflexivity. Qed.

Lemma fold_marks_lower_char (x : ascii) :
  forallb (fun c => negb (is_upper c)) (fold_marks [lower_char x]) = true.
Proof. all_chars x. Qed.

Lemma fold_marks_lower (l : list ascii) (c : ascii) :
  In c (fold_marks (map lower_char l)) -> is_upper c = false.
Proof.
  induction l as [|x l IH]; simpl; [intros []|].
  change (lower_char x :: map lower_char l) with ([lower_char x] ++ map lower_char l).
  rewrite fold_marks_app. intros Hc. apply in_app_or in Hc as [Hc|Hc]; [|exact (IH Hc)].
  pose proof (fold_marks_lower_char x) as H. rewrite forallb_forall in H.
  apply negb_true_iff. exact (H c Hc).
Qed.

Lemma id_char_of_group_char (c : ascii) :
  implb (group_char c && negb (is_upper c) && negb (Ascii.eqb c slash)) (id_char c) = true.
Proof. all_chars c. Qed.

Lemma group_names_chars (s g : string) (c : ascii) :
  In g (group_names_of s) -> In c (list_ascii_of_string g) -> id_char c = true.
Proof.
  unfold group_names_of, to_strings. intros Hg Hc.
  apply in_map_iff in Hg as [w [<- Hw]]. rewrite list_ascii_of_string_of_list_ascii in Hc.
  destruct (split_sep_chars slash [] _ w c (fun _ H => match H with end) Hw Hc)
    as [Hs [[]|Hn]].
  change (normalize_group_field (strip_space_sep s))
    with (filter group_char (fold_marks (map lower_char
            (join ["_"%char] (split_ws_aux [] (list_ascii_of_string (strip_space_sep s))))))) in Hn.
  apply filter_In in Hn as [Hn Hg]. apply fold_marks_lower in Hn.
  pose proof (id_char_of_group_char c) as H. rewrite Hg, Hn in H.
  destruct (Ascii.eqb_spec c slash); [contradiction|exact H].
Qed.

(** Every group a CSV entry is put into by [fix_csv_group_names] is a
    non-empty id made of lower-case ASCII letters, digits, ['_'] and ['-']:
    the lower-casing survives the NFKD step and the filter, and the split
    removes every [GROUP_SEP]. *)
Theorem member_group_ids_canonical (raws : list raw_entry) (e : csv_entry) (g : string)
  (He : In e (fst (fix_csv_group_names raws))) (Hg : In g (member_of_groups e)) :
  g <> "" /\ forall c, In c (list_ascii_of_string g) -> id_char c = true.
Proof.
  unfold fix_csv_group_names in He. rewrite fix_csv_group_names_entries in He.
  apply in_map_iff in He as [r [<- _]]. simpl in Hg. unfold row_groups in Hg.
  rewrite set_of_In, filter_In in Hg. destruct Hg as [Hg Hne].
  split; [unfold nonempty in Hne; apply negb_true_iff, String.eqb_neq in Hne; exact Hne|].
  intros c Hc. exact (group_names_chars _ g c Hg Hc).
Qed.

Lemma member_group_ids_canonical_witness :
  In (hd jdoe_entry (fst (fix_csv_group_names [jdoe_row]))) (fst (fix_csv_group_names [jdoe_row])) /\
  In "buero" (member_of_groups (hd jdoe_entry (fst (fix_csv_group_names [jdoe_row])))) /\
  "buero" <> "" /\ forall c, In c (list_ascii_of_string "buero") -> id_char c = true.
Proof.
  assert (He : In (hd jdoe_entry (fst (fix_csv_group_names [jdoe_row])))
                  (fst (fix_csv_group_names [jdoe_row]))) by (vm_compute; left; reflexivity).
  assert (Hg : In "buero" (member_of_groups (hd jdoe_entry (fst (fix_csv_group_names [jdoe_row])))))
    by (vm_compute; left; reflexivity).
  split; [exact He|]. split; [exact Hg|].
  exact (member_group_ids_canonical [jdoe_row] _ "buero" He Hg).
Defined.

Lemma id_char_inert (c : ascii) :
  id_char c = true ->
  (Ascii.eqb c " "%char || Ascii.eqb c slash) = false /\ is_space c = false /\
  lower_char c = c /\ (code c =? 228) = false /\ (code c =? 246) = false /\
  (code c =? 252) = false /\ nfkd_ascii_char c = [c] /\ group_char c = true /\
  Ascii.eqb c slash = false.
Proof.
  destruct c as [[] [] [] [] [] [] [] []]; vm_compute; intros H; first [discriminate H | repeat split].
Qed.

Lemma drop_while_none (p : ascii -> bool) (l : list ascii) :
  (forall c, In c l -> p c = false) -> drop_while p l = l.
Proof.
  destruct l as [|c l]; intros H; simpl; [reflexivity|]. rewrite (H c (or_introl eq_refl)).
  reflexivity.
Qed.

Lemma strip_list_none (p : ascii -> bool) (l : list ascii) :
  (forall c, In c l -> p c = false) -> strip_list p l = l.
Proof.
  intros H. unfold strip_list. rewrite (drop_while_none p l H), drop_while_none, rev_involutive;
    [reflexivity|]. intros c Hc. apply H, in_rev, Hc.
Qed.

Lemma split_ws_none (cur l : list ascii) :
  (forall c, In c l -> is_space c = false) -> cur <> [] \/ l <> [] ->
  split_ws_aux cur l = [rev cur ++ l].
Proof.
  revert cur. induction l as [|c l IH]; intros cur H Hne; simpl.
  - destruct cur as [|x cur]; [destruct Hne; contradiction|]. rewrite app_nil_r. reflexivity.
  - rewrite (H c (or_introl eq_refl)), IH.
    + simpl. rewrite <- app_assoc. reflexivity.
    + intros x Hx. apply H. right. exact Hx.
    + left. discriminate.
Qed.

Lemma split_sep_none (sep : ascii) (cur l : list ascii) :
  (forall c, In c l -> Ascii.eqb c sep = false) -> split_sep_aux sep cur l = [rev cur ++ l].
Proof.
  revert cur. induction l as [|c l IH]; intros cur H; simpl.
  - rewrite app_nil_r. reflexivity.
  - rewrite (H c (or_introl eq_refl)), IH by (intros x Hx; apply H; right; exact Hx).
    simpl. rewrite <- app_assoc. reflexivity.
Qed.

Lemma flat_map_single (f : ascii -> list ascii) (l : list ascii) :
  (forall c, In c l -> f c = [c]) -> flat_map f l = l.
Proof.
  induction l as [|c l IH]; intros H; simpl; [reflexivity|].
  rewrite (H c (or_introl eq_refl)), IH; [reflexivity|]. intros x Hx. apply H. right. exact Hx.
Qed.

(** A canonical group id is a fixed point of the normalisation: as a
    group field of its own it yields itself as the only group name, and
    itself as its catalog label. *)
Theorem canonical_id_normalizes_to_itself (g : string) (Hne : g <> "")
  (Hc : forall c, In c (list_ascii_of_string g) -> id_char c = true) :
  group_names_of g = [g] /\ original_segments_of g = [g].
Proof.
  set (l := list_ascii_of_string g).
  pose proof (fun c Hin => id_char_inert c (Hc c Hin)) as Hi. fold l in Hi.
  assert (Hss : strip_space_sep g = g).
  { unfold strip_space_sep, strip_by. fold l. rewrite strip_list_none.
    - apply string_of_list_ascii_of_string.
    - intros c Hin. apply (Hi c Hin). }
  assert (Hsl : forall c, In c l -> Ascii.eqb c slash = false) by (intros c Hin; apply (Hi c Hin)).
  assert (Hl : l <> []).
  { intros E. apply Hne. rewrite <- (string_of_list_ascii_of_string g). fold l. rewrite E.
    reflexivity. }
  split.
  - unfold group_names_of. rewrite Hss.
    change (normalize_group_field g)
      with (filter group_char (fold_marks (map lower_char
              (join ["_"%char] (split_ws_aux [] l))))).
    rewrite split_ws_none; [|intros c Hin; apply (Hi c Hin)|right; exact Hl].
    simpl join. unfold fold_marks, replace_char.
    rewrite (map_ext_in lower_char (fun c => c)) by (intros c Hin; apply (Hi c Hin)).
    rewrite map_id.
    rewrite (flat_map_single (fun c => if code c =? 228 then chars [97; 101] else [c]))
      by (intros c Hin; destruct (Hi c Hin) as (_ & _ & _ & -> & _); reflexivity).
    rewrite (flat_map_single (fun c => if code c =? 246 then chars [111; 101] else [c]))
      by (intros c Hin; destruct (Hi c Hin) as (_ & _ & _ & _ & -> & _); reflexivity).
    rewrite (flat_map_single (fun c => if code c =? 252 then chars [117; 101] else [c]))
      by (intros c Hin; destruct (Hi c Hin) as (_ & _ & _ & _ & _ & -> & _); reflexivity).
    rewrite flat_map_single by (intros c Hin; apply (Hi c Hin)).
    rewrite (forallb_filter_id group_char l)
      by (apply forallb_forall; intros c Hin; apply (Hi c Hin)).
    rewrite split_sep_none by exact Hsl. simpl. unfold to_strings. simpl.
    unfold l. rewrite string_of_list_ascii_of_string. reflexivity.
  - unfold original_segments_of. rewrite Hss. fold l. rewrite split_sep_none by exact Hsl.
    simpl. unfold l, to_strings. simpl. rewrite string_of_list_ascii_of_string. reflexivity.
Qed.

Lemma canonical_id_normalizes_to_itself_witness :
  "team-2_b" <> "" /\ (forall c, In c (list_ascii_of_string "team-2_b") -> id_char c = true) /\
  group_names_of "team-2_b" = ["team-2_b"] /\ original_segments_of "team-2_b" = ["team-2_b"].
Proof.
  assert (Hne : "team-2_b" <> "") by discriminate.
  assert (Hc : forall c, In c (list_ascii_of_string "team-2_b") -> id_char c = true).
  { simpl. intros c Hin. repeat destruct Hin as [<-|Hin]; [reflexivity ..|destruct Hin]. }
  split; [exact Hne|]. split; [exact Hc|].
  exact (canonical_id_normalizes_to_itself "team-2_b" Hne Hc).
Defined.

Lemma list_ascii_of_string_append (a b : string) :
  list_ascii_of_string (String.append a b) = list_ascii_of_string a ++ list_ascii_of_string b.
Proof. induction a as [|c a IH]; simpl; [reflexivity|]. rewrite IH. reflexivity. Qed.

Lemma drop_while_app_all (p : ascii -> bool) (a m : list ascii) :
  (forall c, In c a -> p c = true) -> drop_while p (a ++ m) = drop_while p m.
Proof.
  induction a as [|c a IH]; intros H; simpl; [reflexivity|].
  rewrite (H c (or_introl eq_refl)). apply IH. intros x Hx. apply H. right. exact Hx.
Qed.

Lemma drop_while_app_r (p : ascii -> bool) (l b : list ascii) :
  (forall c, In c b -> p c = true) ->
  drop_while p (l ++ b) = match drop_while p l with [] => [] | _ => drop_while p l ++ b end.
Proof.
  intros Hb. induction l as [|c l IH]; simpl.
  - apply drop_while_all. exact Hb.
  - destruct (p c); [exact IH|reflexivity].
Qed.

Lemma strip_list_edges (p : ascii -> bool) (a l b : list ascii) :
  (forall c, In c a -> p c = true) -> (forall c, In c b -> p c = true) ->
  strip_list p (a ++ l ++ b) = strip_list p l.
Proof.
  intros Ha Hb. unfold strip_list.
  rewrite drop_while_app_all by exact Ha. rewrite drop_while_app_r by exact Hb.
  destruct (drop_while p l) as [|c m]; [reflexivity|].
  rewrite rev_app_distr, drop_while_app_all; [reflexivity|].
  intros x Hx. apply Hb, in_rev, Hx.
Qed.

(** Spaces and [GROUP_SEP] characters around the group field are ignored:
    they change neither the group names nor the catalog labels. *)
Theorem group_field_edges_ignored (a s b : string)
  (Ha : forall c, In c (list_ascii_of_string a) -> c = " "%char \/ c = slash)
  (Hb : forall c, In c (list_ascii_of_string b) -> c = " "%char \/ c = slash) :
  group_names_of (String.append a (String.append s b)) = group_names_of s /\
  original_segments_of (String.append a (String.append s b)) = original_segments_of s.
Proof.
  assert (H : strip_space_sep (String.append a (String.append s b)) = strip_space_sep s).
  { unfold strip_space_sep, strip_by. rewrite !list_ascii_of_string_append.
    rewrite strip_list_edges; [reflexivity| |];
      intros c Hc; [destruct (Ha c Hc) as [->| ->]|destruct (Hb c Hc) as [->| ->]]; reflexivity. }
  unfold group_names_of, original_segments_of. rewrite H. split; reflexivity.
Qed.

Lemma group_field_edges_ignored_witness :
  (forall c, In c (list_ascii_of_string " /") -> c = " "%char \/ c = slash) /\
  (forall c, In c (list_ascii_of_string "/ ") -> c = " "%char \/ c = slash) /\
  group_names_of (String.append " /" (String.append "Team/Ops" "/ ")) = group_names_of "Team/Ops" /\
  original_segments_of (String.append " /" (String.append "Team/Ops" "/ ")) =
    original_segments_of "Team/Ops".
Proof.
  assert (Ha : forall c, In c (list_ascii_of_string " /") -> c = " "%char \/ c = slash).
  { simpl. intros c [<-|[<-|[]]]; [left|right]; reflexivity. }
  assert (Hb : forall c, In c (list_ascii_of_string "/ ") -> c = " "%char \/ c = slash).
  { simpl. intros c [<-|[<-|[]]]; [right|left]; reflexivity. }
  split; [exact Ha|]. split; [exact Hb|].
  exact (group_field_edges_ignored " /" "Team/Ops" "/ " Ha Hb).
Defined.

(** ** The member lists of [find_user_differences] *)

Lemma append_inj (p a b : string) : String.append p a = String.append p b -> a = b.
Proof. induction p as [|c p IH]; simpl; [auto|]. intros [= H]. exact (IH H). Qed.

Lemma NoDup_snoc {A} (l : list A) (x : A) : NoDup l -> ~ In x l -> NoDup (l ++ [x]).
Proof.
  induction l as [|y l IH]; intros Hnd Hx; simpl; [constructor; [intros []|constructor]|].
  inversion Hnd as [|? ? Hy Hnd']; subst. constructor.
  - intros Hin. apply in_app_or in Hin as [Hin|[<-|[]]]; [exact (Hy Hin)|apply Hx; left; reflexivity].
  - apply IH; [exact Hnd'|]. intros Hin. apply Hx. right. exact Hin.
Qed.

Lemma members_ok_mono (d : dict (list string)) (A B : list string) :
  members_ok d A -> (forall u, In u A -> In u B) -> members_ok d B.
Proof.
  intros H Hs g l Hg. destruct (H g l Hg) as [Hnd Hx]. split; [exact Hnd|].
  intros x Hin. destruct (Hx x Hin) as [u [Hu ->]]. exists u. split; [exact (Hs u Hu)|reflexivity].
Qed.

Lemma add_members_ok (u : string) (gs : list string) (d : dict (list string)) (done : list string) :
  members_ok d done -> ~ In u done -> NoDup gs -> members_ok (add_members u gs d) (u :: done).
Proof.
  intros Hok Hu Hgs g l Hg. destruct (in_dec string_dec g gs) as [Hin|Hin].
  - rewrite add_members_in in Hg by assumption. injection Hg as <-.
    unfold get_list. destruct (dict_get g d) as [l0|] eqn:E.
    + destruct (Hok g l0 E) as [Hnd Hx]. split.
      * apply NoDup_snoc; [exact Hnd|]. intros Hf. destruct (Hx _ Hf) as [v [Hv Heq]].
        apply append_inj in Heq. subst v. contradiction.
      * intros x Hx'. apply in_app_or in Hx' as [Hx'|[<-|[]]].
        -- destruct (Hx x Hx') as [v [Hv ->]]. exists v. split; [right; exact Hv|reflexivity].
        -- exists u. split; [left|]; reflexivity.
    + split; [constructor; [intros []|constructor]|].
      intros x [<-|[]]. exists u. split; [left|]; reflexivity.
  - rewrite add_members_notin in Hg by exact Hin.
    exact (members_ok_mono d done (u :: done) Hok (fun v Hv => or_intror Hv) g l Hg).
Qed.

Lemma set_diff_NoDup (a b : list string) : NoDup a -> NoDup (set_diff a b).
Proof. apply NoDup_filter. Qed.

Lemma default_groups_NoDup : NoDup DEFAULT_GROUPS.
Proof. constructor; [intros []|constructor]. Qed.

Lemma fold_members_ok (P : list (csv_entry * ipa_entry)) (ch : changes) (done : list string) :
  members_ok (group_add_member ch) done -> members_ok (group_remove_member ch) done ->
  (forall p, In p P -> ~ In (pair_login p) done) -> NoDup (map pair_login P) ->
  (forall p, In p P -> NoDup (member_of_groups (fst p)) /\ NoDup (ipa_groups (snd p))) ->
  members_ok (group_add_member (fold_left diff_one P ch)) (map pair_login P ++ done) /\
  members_ok (group_remove_member (fold_left diff_one P ch)) (map pair_login P ++ done).
Proof.
  revert ch done. induction P as [|[new old] P IH]; intros ch done Ha Hr Hd Hnd Hs; simpl.
  - split; assumption.
  - inversion Hnd as [|? ? Hx Hnd']; subst.
    destruct (Hs (new, old) (or_introl eq_refl)) as [Hn Ho]. simpl in Hn, Ho.
    assert (Hu : ~ In (user_login new) done) by exact (Hd (new, old) (or_introl eq_refl)).
    assert (Hsets : forall a b, NoDup a -> NoDup b ->
      NoDup (set_diff (set_union a DEFAULT_GROUPS) (set_union b DEFAULT_GROUPS))).
    { intros a b Ha' _. apply set_diff_NoDup, set_union_NoDup; [exact Ha'|exact default_groups_NoDup]. }
    destruct (IH (diff_one ch (new, old)) (user_login new :: done)) as [H1 H2].
    + rewrite diff_one_group_add_member. apply add_members_ok; [exact Ha|exact Hu|].
      apply Hsets; assumption.
    + rewrite diff_one_group_remove_member. apply add_members_ok; [exact Hr|exact Hu|].
      apply Hsets; assumption.
    + intros p Hp [Hp'|Hp'].
      * apply Hx. change (pair_login (new, old)) with (user_login new). rewrite Hp'. apply in_map. exact Hp.
      * exact (Hd p (or_intror Hp) Hp').
    + exact Hnd'.
    + intros p Hp. exact (Hs p (or_intror Hp)).
    + unfold pair_login at 1. simpl.
      split; (eapply members_ok_mono; [eassumption|]); intros v Hv;
        apply in_app_or in Hv as [Hv|[<-|Hv]]; simpl; auto using in_or_app, in_eq, in_cons.
Qed.

(** With unique logins and with sets for the group fields, every list of
    [group-add-member] or [group-remove-member] holds distinct [--users=]
    flags, one for each of some imported logins: no command names a user
    twice. *)
Theorem member_lists_duplicate_free (csv : list csv_entry) (ipa : list ipa_entry)
  (Hu : NoDup (map user_login csv))
  (Hn : forall e, In e csv -> NoDup (member_of_groups e))
  (Ho : forall o, In o ipa -> NoDup (ipa_groups o)) :
  forall g l,
  (dict_get g (group_add_member (find_user_differences csv ipa)) = Some l \/
   dict_get g (group_remove_member (find_user_differences csv ipa)) = Some l) ->
  NoDup l /\ forall x, In x l -> exists u, In u (map user_login csv) /\ x = users_flag u.
Proof.
  assert (Hnil : members_ok [] []) by (intros g l H; discriminate H).
  destruct (fold_members_ok (combine csv ipa) empty_changes [] Hnil Hnil
              (fun _ _ H => match H with end) (NoDup_combine_logins csv ipa Hu))
    as [Ha Hr].
  { intros [e o] Hp. split; [exact (Hn e (in_combine_l _ _ _ _ Hp))|exact (Ho o (in_combine_r _ _ _ _ Hp))]. }
  rewrite app_nil_r in Ha, Hr.
  assert (Hsub : forall u, In u (map pair_login (combine csv ipa)) -> In u (map user_login csv)).
  { intros u Hin. apply in_map_iff in Hin as [[e o] [<- Hp]].
    change (pair_login (e, o)) with (user_login e). apply in_map. exact (in_combine_l _ _ _ _ Hp). }
  intros g l [Hg|Hg]; [exact (members_ok_mono _ _ _ Ha Hsub g l Hg)|exact (members_ok_mono _ _ _ Hr Hsub g l Hg)].
Qed.

Lemma member_lists_duplicate_free_witness :
  dict_get "team" (group_add_member
    (find_user_differences [jdoe_entry; asmith_entry] [ipa_absent; ipa_absent])) =
    Some ["--users=jdoe"; "--users=asmith"] /\
  NoDup (map user_login [jdoe_entry; asmith_entry]) /\
  (forall e, In e [jdoe_entry; asmith_entry] -> NoDup (member_of_groups e)) /\
  (forall o, In o [ipa_absent; ipa_absent] -> NoDup (ipa_groups o)) /\
  forall g l,
  (dict_get g (group_add_member
     (find_user_differences [jdoe_entry; asmith_entry] [ipa_absent; ipa_absent])) = Some l \/
   dict_get g (group_remove_member
     (find_user_differences [jdoe_entry; asmith_entry] [ipa_absent; ipa_absent])) = Some l) ->
  NoDup l /\ forall x, In x l -> exists u, In u (map user_login [jdoe_entry; asmith_entry]) /\
                                          x = users_flag u.
Proof.
  assert (Hu : NoDup (map user_login [jdoe_entry; asmith_entry])).
  { simpl. constructor; [intros [H|[]]; discriminate H|].
    constructor; [intros []|constructor]. }
  assert (Hn : forall e, In e [jdoe_entry; asmith_entry] -> NoDup (member_of_groups e)).
  { intros e [<-|[<-|[]]]; simpl.
    - constructor; [intros [H|[]]; discriminate H|]. constructor; [intros []|constructor].
    - constructor; [intros []|constructor]. }
  assert (Ho : forall o, In o [ipa_absent; ipa_absent] -> NoDup (ipa_groups o)).
  { intros o [<-|[<-|[]]]; simpl; constructor. }
  split; [vm_compute; reflexivity|].
  split; [exact Hu|]. split; [exact Hn|]. split; [exact Ho|].
  exact (member_lists_duplicate_free [jdoe_entry; asmith_entry] [ipa_absent; ipa_absent] Hu Hn Ho).
Defined.

(** ** Composition of [query_ipa], [fix_ipa_groups] and [find_user_differences] *)

Lemma dict_set_not_nil {V} (k : string) (v : V) (d : dict V) : dict_set k v d <> [].
Proof.
  unfold dict_set. destruct (dict_get k d) eqn:E.
  - destruct d as [|[k' v'] d]; [discriminate|]. simpl. destruct (String.eqb k k'); discriminate.
  - destruct d; discriminate.
Qed.

Lemma parse_lines_not_nil (d : dict string) (lines : list (list ascii)) (d' : dict string) :
  parse_lines d lines = Some d' -> d <> [] \/ lines <> [] -> d' <> [].
Proof.
  revert d. induction lines as [|line lines IH]; intros d Hp Hne; simpl in Hp.
  - injection Hp as <-. destruct Hne as [H|H]; [exact H|contradiction].
  - destruct (split_colon line) as [[key val]|]; [|discriminate].
    apply (IH _ Hp). left. apply dict_set_not_nil.
Qed.

Lemma split_sep_not_nil (sep : ascii) (cur l : list ascii) : split_sep_aux sep cur l <> [].
Proof.
  revert cur. induction l as [|c l IH]; intros cur; simpl; [discriminate|].
  destruct (Ascii.eqb c sep); [discriminate|apply IH].
Qed.

(** A user whose [ipa user-show] succeeds and parses is a present user:
    [find_user_differences] never schedules it for [user-add]. *)
Theorem found_user_not_added (output : string) (e : ipa_entry) (ch : changes) (new : csv_entry)
  (Hq : query_user (Some output) = Some e) :
  ipa_truthy e = true /\ user_add (diff_one ch (new, e)) = user_add ch.
Proof.
  unfold query_user in Hq. destruct (parse_freeipa_output output) as [d|] eqn:Hp; [|discriminate].
  injection Hq as <-.
  assert (Ht : ipa_truthy (fix_ipa_group d) = true).
  { apply fix_ipa_group_truthy. apply (parse_lines_not_nil [] (output_lines output) d Hp).
    right. apply split_sep_not_nil. }
  split; [exact Ht|]. rewrite diff_one_user_add, Ht. reflexivity.
Qed.

Lemma found_user_not_added_witness :
  query_user (Some sample_user_show) =
    Some (fix_ipa_group [("user_login", "jdoe"); ("first_name", "Jane");
                         ("member_of_groups", "ipausers, staff")]) /\
  ipa_truthy (fix_ipa_group [("user_login", "jdoe"); ("first_name", "Jane");
                             ("member_of_groups", "ipausers, staff")]) = true /\
  user_add (diff_one empty_changes
              (jdoe_entry, fix_ipa_group [("user_login", "jdoe"); ("first_name", "Jane");
                                          ("member_of_groups", "ipausers, staff")])) =
  user_add empty_changes.
Proof.
  assert (Hq : query_user (Some sample_user_show) =
    Some (fix_ipa_group [("user_login", "jdoe"); ("first_name", "Jane");
                         ("member_of_groups", "ipausers, staff")])) by (vm_compute; reflexivity).
  split; [exact Hq|]. exact (found_user_not_added sample_user_show _ empty_changes jdoe_entry Hq).
Defined.

(** The counts [main] prints before asking for confirmation add up to the
    number of [ipa] commands [commit_changes] runs. *)
Theorem summary_counts_commands (p : plan) :
  List.length (commit_changes p) =
  List.length (plan_user_add p) + List.length (plan_user_mod p) + List.length (plan_group_add p)
  + List.length (plan_group_add_member p) + List.length (plan_group_remove_member p).
Proof.
  destruct p as [ua um ga gam grm]. unfold commit_changes, plan_category. simpl.
  rewrite app_nil_r, !length_app, !length_map. lia.
Qed.
